(** * PokeAPI gateway: a shallow embedding of [main.py]

    The Flask application of [main.py] guards three endpoints that query
    an upstream catalog.  This file embeds the authorization decorator
    [requiere_autorizacion] and the three views [get_pokemon_type],
    [get_random_pokemon_by_type] and [get_longest_name_pokemon], together
    with the pieces of Python they rely on (dictionary access, iteration,
    [len], [max], [str.split], [str.lower], [random.choice], [try]/[except]).

    Conventions.
    - A Python [str] is a Rocq [string], one [ascii] per character: the
      code points 0 to 255. Text with other characters is outside the
      model.
    - A decoded JSON value is a [json]; a JSON object is kept as the list of
      its bindings, in the order of the decoder, each key bound once; a
      number is kept as an integer (no view reads a number).
    - The [session] of a request maps ["user"] to the dictionary of
      identity claims stored by the login callback. The decorator on a
      session whose entries are arbitrary decoded values is
      [requiere_autorizacion_raw]; the two agree on dictionaries.
    - Effects are explicit: a view is a function on a [world] that records
      the upstream requests issued and the records handed to [logging].
    - A Python exception is a value of [exn]; computations that may raise
      return [result]. *)

From Stdlib Require Import String Ascii ZArith List Bool Lia.
From stdpp Require Import base option list strings gmap.

Open Scope string_scope.
Open Scope Z_scope.

(** ** JSON values *)

#[warnings="-register-all"]
Inductive json : Type :=
| JNull
| JBool (b : bool)
| JNum (n : Z)
| JStr (s : string)
| JArr (items : list json)
| JObj (fields : list (string * json)).

(** ** Python exceptions and pure operations *)

Inductive exn : Type :=
| KeyError
| TypeError
| AttributeError
| IndexError
| ValueError
| ConnectionError
| JSONDecodeError
| BuildError.

Definition result (A : Type) : Type := (exn + A)%type.

Definition rbind {A B} (r : result A) (k : A → result B) : result B :=
  match r with
  | inl e => inl e
  | inr a => k a
  end.

Fixpoint rmap {A B} (f : A → result B) (l : list A) : result (list B) :=
  match l with
  | [] => inr []
  | x :: xs => rbind (f x) (λ y, rbind (rmap f xs) (λ ys, inr (y :: ys)))
  end.

(** [d[k]] on the bindings of a dictionary. *)
Fixpoint assoc (k : string) (fields : list (string * json)) : option json :=
  match fields with
  | [] => None
  | (k', v) :: rest => if String.eqb k k' then Some v else assoc k rest
  end.

(** [v[k]] with a string key: only a dictionary accepts it. *)
Definition py_getitem (v : json) (k : string) : result json :=
  match v with
  | JObj fields =>
      match assoc k fields with
      | Some x => inr x
      | None => inl KeyError
      end
  | _ => inl TypeError
  end.

(** [v.get(k, dflt)]: only a dictionary has the method. *)
Definition py_get (v : json) (k : string) (dflt : json) : result json :=
  match v with
  | JObj fields =>
      match assoc k fields with
      | Some x => inr x
      | None => inr dflt
      end
  | _ => inl AttributeError
  end.

Fixpoint chars (s : string) : list json :=
  match s with
  | EmptyString => []
  | String c rest => JStr (String c EmptyString) :: chars rest
  end.

(** [for x in v]: a list yields its items, a string its characters, a
    dictionary its keys; nothing else is iterable. *)
Definition py_iter (v : json) : result (list json) :=
  match v with
  | JArr items => inr items
  | JStr s => inr (chars s)
  | JObj fields => inr (map (λ kv, JStr (fst kv)) fields)
  | _ => inl TypeError
  end.

(** [len(v)]. *)
Definition py_len (v : json) : result nat :=
  match v with
  | JStr s => inr (String.length s)
  | JArr items => inr (length items)
  | JObj fields => inr (length fields)
  | _ => inl TypeError
  end.

(** [v in l] for a list [l] of strings: equality of a string with a value
    of another type is false. *)
Definition py_in (v : json) (l : list string) : bool :=
  match v with
  | JStr s => bool_decide (s ∈ l)
  | _ => false
  end.

(** [max(l, key=key)]: the running maximum is replaced only by an item whose
    key is strictly greater. *)
Fixpoint max_loop {A} (key : A → result nat) (best : A) (kbest : nat)
    (rest : list A) : result A :=
  match rest with
  | [] => inr best
  | x :: rest' =>
      rbind (key x) (λ k,
        if (kbest <? k)%nat then max_loop key x k rest'
        else max_loop key best kbest rest')
  end.

Definition py_max {A} (l : list A) (key : A → result nat) : result A :=
  match l with
  | [] => inl ValueError
  | x :: rest => rbind (key x) (λ k, max_loop key x k rest)
  end.

(** Line 146: [[t['type']['name'] for t in data.get('types', [])]]. *)
Definition extract_types (data : json) : result (list json) :=
  rbind (rbind (py_get data "types" (JArr [])) py_iter)
    (rmap (λ t, rbind (py_getitem t "type") (λ ty, py_getitem ty "name"))).

(** Lines 172 and 201: [[p['pokemon'] for p in data.get('pokemon', [])]]. *)
Definition extract_pokemons (data : json) : result (list json) :=
  rbind (rbind (py_get data "pokemon" (JArr [])) py_iter)
    (rmap (λ p, py_getitem p "pokemon")).

(** Line 206: [lambda x: len(x['name'])]. *)
Definition name_length (x : json) : result nat :=
  rbind (py_getitem x "name") py_len.

(** [random.choice(seq)] is [seq[randbelow(len(seq))]]. *)
Definition random_choice {A} (randbelow : nat → nat) (seq : list A) : result A :=
  match seq !! randbelow (length seq) with
  | Some x => inr x
  | None => inl IndexError
  end.

(** [s.lower()], character by character. Among the code points 0 to 255
    the cased characters with a lowercase form of their own are A to Z
    (65 to 90) and the capital letters 192 to 222 other than the sign 215;
    each stands 32 code points below its lowercase form. *)
Definition lower_ascii (c : ascii) : ascii :=
  let n := nat_of_ascii c in
  if (((65 <=? n) && (n <=? 90))
      || ((192 <=? n) && (n <=? 222) && negb (n =? 215)))%nat
  then ascii_of_nat (n + 32) else c.

Fixpoint lower (s : string) : string :=
  match s with
  | EmptyString => EmptyString
  | String c rest => String (lower_ascii c) (lower rest)
  end.

(** [s.split(sep)] for a one-character separator. *)
Fixpoint split (sep : ascii) (s : string) : list string :=
  match s with
  | EmptyString => [EmptyString]
  | String c rest =>
      if Ascii.eqb c sep then EmptyString :: split sep rest
      else match split sep rest with
           | [] => [String c EmptyString]
           | piece :: pieces => String c piece :: pieces
           end
  end.

(** [os.getenv(name, "")] on the value the environment holds for [name]. *)
Definition getenv (value : option string) (dflt : string) : string :=
  match value with
  | Some v => v
  | None => dflt
  end.

(** Line 23: the allow-list read from the environment at start-up. *)
Definition EMAILS_PERMITIDOS_env (value : option string) : list string :=
  split "," (getenv value "").

(** ** The world of a request *)

Inductive level : Type := INFO | WARNING | ERROR | EXCEPTION.

(** A formatted message: literal text and replacement fields. *)
Inductive piece : Type :=
| Text (s : string)
| Field (v : json).

Record world : Type := World {
  calls : list string;          (* URLs requested upstream, oldest first *)
  logged : list (level * list piece)
}.

Definition M (A : Type) : Type := world → result A * world.

Definition ret {A} (a : A) : M A := λ w, (inr a, w).

Definition bind {A B} (m : M A) (k : A → M B) : M B :=
  λ w, match m w with
       | (inl e, w') => (inl e, w')
       | (inr a, w') => k a w'
       end.

Definition lift {A} (r : result A) : M A := λ w, (r, w).

Definition try_except {A} (body : M A) (handler : exn → M A) : M A :=
  λ w, match body w with
       | (inl e, w') => handler e w'
       | (inr a, w') => (inr a, w')
       end.

#[global] Instance M_ret : MRet M := @ret.
#[global] Instance M_bind : MBind M := λ A B k m, bind m k.

Definition logging (lv : level) (msg : list piece) : M unit :=
  λ w, (inr tt, World (calls w) (logged w ++ [(lv, msg)])).

(** The value of a query parameter inside a formatted message. *)
Definition shown (p : option string) : json :=
  match p with
  | Some s => JStr s
  | None => JNull
  end.

(** ** Upstream *)

Inductive upstream_reply : Type :=
| Unreachable                                   (* [requests.get] raises *)
| Reply (status_code : Z) (body : option json). (* [None]: [.json()] raises *)

Record response : Type := Response {
  status_code : Z;
  body : option json
}.

Definition response_json (r : response) : result json :=
  match body r with
  | Some data => inr data
  | None => inl JSONDecodeError
  end.

(** ** HTTP outcomes of a view *)

Inductive http_response : Type :=
| Redirect (location : string)
| Abort (code : Z)
| Jsonify (payload : json) (status : Z).

Record request : Type := Request {
  session : gmap string (gmap string json);
  args : gmap string string
}.

Definition view : Type := request → M http_response.

(** The routes registered with [@app.route], by view name. *)
Definition routes : list (string * string) :=
  [ ("home", "/");
    ("login", "/login");
    ("callback", "/callback");
    ("dashboard", "/dashboard");
    ("logout", "/logout");
    ("get_pokemon_type", "/pokemon/type");
    ("get_random_pokemon_by_type", "/pokemon/random");
    ("get_longest_name_pokemon", "/pokemon/longest") ].

Fixpoint route_of (endpoint : string) (table : list (string * string)) : option string :=
  match table with
  | [] => None
  | (name, path) :: rest =>
      if String.eqb endpoint name then Some path else route_of endpoint rest
  end.

Definition url_for (endpoint : string) : result string :=
  match route_of endpoint routes with
  | Some path => inr path
  | None => inl BuildError
  end.

Definition error_body (msg : string) : json := JObj [("error", JStr msg)].

(** ** The application *)

Section App.

(** [app.config['POKEAPI_BASE_URL']], the allow-list of line 23, the
    upstream catalog as seen by [requests.get], and the draw of the
    random generator behind [random.choice]. *)
Variable POKEAPI_BASE_URL : string.
Variable EMAILS_PERMITIDOS : list string.
Variable upstream : string → upstream_reply.
Variable randbelow : nat → nat.

Definition requests_get (url : string) : M response :=
  λ w, let w' := World (calls w ++ [url]) (logged w) in
       match upstream url with
       | Unreachable => (inl ConnectionError, w')
       | Reply st b => (inr (Response st b), w')
       end.

(** Lines 110-124. *)
Definition requiere_autorizacion (f : view) : view := λ req,
  match session req !! "user" with
  | None =>
      logging WARNING [Text "Acceso denegado: usuario no autenticado"];;
      target ← lift (url_for "login");
      mret (Redirect target)
  | Some user =>
      match user !! "email" with
      | None =>
          logging WARNING [Text "Acceso denegado: usuario no autenticado"];;
          target ← lift (url_for "login");
          mret (Redirect target)
      | Some email =>
          if negb (py_in email EMAILS_PERMITIDOS) then
            logging WARNING [Text "Acceso denegado para el email: "; Field email];;
            mret (Abort 403)
          else f req
      end
  end.

(** Lines 139-148: the [try] block of [get_pokemon_type]. *)
Definition get_pokemon_type_try (name : string) : M http_response :=
  response ← requests_get (POKEAPI_BASE_URL ++ "/pokemon/" ++ lower name);
  if negb (status_code response =? 200) then
    logging ERROR [Text "Pokemon "; Field (JStr name);
                   Text " no encontrado (status code: ";
                   Field (JNum (status_code response)); Text ")"];;
    mret (Jsonify (error_body "Pokemon no encontrado") 404)
  else
    data ← lift (response_json response);
    types ← lift (extract_types data);
    logging INFO [Text "Tipos encontrados para "; Field (JStr name);
                  Text ": "; Field (JArr types)];;
    mret (Jsonify (JObj [("name", JStr name); ("types", JArr types)]) 200).

(** Lines 149-151: its [except] clause. *)
Definition get_pokemon_type_except (e : exn) : M http_response :=
  logging EXCEPTION [Text "Error al obtener el tipo de Pokemon"];;
  mret (Jsonify (error_body "Error interno del servidor") 500).

(** Lines 128-151, the function under the decorator. *)
Definition get_pokemon_type_view : view := λ req,
  let name := args req !! "name" in
  logging INFO [Text "Solicitud de tipos para Pokemon: "; Field (shown name)];;
  match name with
  | None | Some EmptyString =>
      logging ERROR [Text "Falta el parametro 'name'"];;
      mret (Jsonify (error_body "Falta el parametro 'name'") 400)
  | Some name => try_except (get_pokemon_type_try name) get_pokemon_type_except
  end.

(** Lines 166-178: the [try] block of [get_random_pokemon_by_type]. *)
Definition get_random_pokemon_by_type_try (pokemon_type : string) : M http_response :=
  response ← requests_get (POKEAPI_BASE_URL ++ "/type/" ++ lower pokemon_type);
  if negb (status_code response =? 200) then
    logging ERROR [Text "Tipo "; Field (JStr pokemon_type);
                   Text " no encontrado (status code: ";
                   Field (JNum (status_code response)); Text ")"];;
    mret (Jsonify (error_body "Tipo no encontrado") 404)
  else
    data ← lift (response_json response);
    pokemons ← lift (extract_pokemons data);
    match pokemons with
    | [] =>
        logging ERROR [Text "No se encontraron Pokemon para el tipo ";
                       Field (JStr pokemon_type)];;
        mret (Jsonify (error_body "No se encontraron Pokemon para este tipo") 404)
    | _ :: _ =>
        random_pokemon ← lift (random_choice randbelow pokemons);
        shown_name ← lift (py_getitem random_pokemon "name");
        logging INFO [Text "Pokemon aleatorio seleccionado: "; Field shown_name];;
        mret (Jsonify random_pokemon 200)
    end.

(** Lines 179-181: its [except] clause. *)
Definition get_random_pokemon_by_type_except (e : exn) : M http_response :=
  logging EXCEPTION [Text "Error al obtener un Pokemon al azar"];;
  mret (Jsonify (error_body "Error interno del servidor") 500).

(** Lines 155-181, the function under the decorator. *)
Definition get_random_pokemon_by_type_view : view := λ req,
  let pokemon_type := args req !! "type" in
  logging INFO [Text "Solicitud de Pokemon aleatorio para el tipo: ";
                Field (shown pokemon_type)];;
  match pokemon_type with
  | None | Some EmptyString =>
      logging ERROR [Text "Falta el parametro 'type'"];;
      mret (Jsonify (error_body "Falta el parametro 'type'") 400)
  | Some pokemon_type =>
      try_except (get_random_pokemon_by_type_try pokemon_type)
        get_random_pokemon_by_type_except
  end.

(** Lines 196-208: the [try] block of [get_longest_name_pokemon]. *)
Definition get_longest_name_pokemon_try (pokemon_type : string) : M http_response :=
  response ← requests_get (POKEAPI_BASE_URL ++ "/type/" ++ lower pokemon_type);
  if negb (status_code response =? 200) then
    logging ERROR [Text "Tipo "; Field (JStr pokemon_type);
                   Text " no encontrado (status code: ";
                   Field (JNum (status_code response)); Text ")"];;
    mret (Jsonify (error_body "Tipo no encontrado") 404)
  else
    data ← lift (response_json response);
    pokemons ← lift (extract_pokemons data);
    match pokemons with
    | [] =>
        logging ERROR [Text "No se encontraron Pokemon para el tipo ";
                       Field (JStr pokemon_type)];;
        mret (Jsonify (error_body "No se encontraron Pokemon para este tipo") 404)
    | _ :: _ =>
        longest_pokemon ← lift (py_max pokemons name_length);
        shown_name ← lift (py_getitem longest_pokemon "name");
        logging INFO [Text "Pokemon con nombre mas largo: "; Field shown_name];;
        mret (Jsonify longest_pokemon 200)
    end.

(** Lines 209-211: its [except] clause. *)
Definition get_longest_name_pokemon_except (e : exn) : M http_response :=
  logging EXCEPTION [Text "Error al obtener el Pokemon con el nombre mas largo"];;
  mret (Jsonify (error_body "Error interno del servidor") 500).

(** Lines 185-211, the function under the decorator. *)
Definition get_longest_name_pokemon_view : view := λ req,
  let pokemon_type := args req !! "type" in
  logging INFO [Text "Solicitud de Pokemon con nombre mas largo para el tipo: ";
                Field (shown pokemon_type)];;
  match pokemon_type with
  | None | Some EmptyString =>
      logging ERROR [Text "Falta el parametro 'type'"];;
      mret (Jsonify (error_body "Falta el parametro 'type'") 400)
  | Some pokemon_type =>
      try_except (get_longest_name_pokemon_try pokemon_type)
        get_longest_name_pokemon_except
  end.

(** The three routes, as registered: the function under its decorator. *)
Definition get_pokemon_type : view :=
  requiere_autorizacion get_pokemon_type_view.
Definition get_random_pokemon_by_type : view :=
  requiere_autorizacion get_random_pokemon_by_type_view.
Definition get_longest_name_pokemon : view :=
  requiere_autorizacion get_longest_name_pokemon_view.

End App.

(** ** The contracts of the specification *)

(** The decision of the authorization gate (specification, section 4.2). *)
Inductive decision : Type := Allow | DenyUnauthenticated | DenyForbidden.

(** The email claim of the session, when a session exists and carries one. *)
Definition email_claim (s : gmap string (gmap string json)) : option json :=
  user ← s !! "user"; user !! "email".

(** Exact membership of an email claim in the allow-list: the claim is a
    string equal, character for character, to an entry of the list. *)
Definition on_allow_list (allow : list string) (email : json) : Prop :=
  match email with
  | JStr s => s ∈ allow
  | _ => False
  end.

#[global] Instance on_allow_list_dec allow email : Decision (on_allow_list allow email) :=
  match email as e return Decision (on_allow_list allow e) with
  | JStr s => decide (s ∈ allow)
  | _ => right (λ H, H)
  end.

(** The rule of section 4.2, in its order: (a), (b), (c). *)
Definition authorize (allow : list string) (s : gmap string (gmap string json)) : decision :=
  match email_claim s with
  | None => DenyUnauthenticated
  | Some email =>
      if decide (on_allow_list allow email) then Allow else DenyForbidden
  end.




(** The entry [t] of an entity's [types] list carries the label [lbl]. *)
Definition labelled (t lbl : json) : Prop :=
  ∃ ty, py_getitem t "type" = inr ty ∧ py_getitem ty "name" = inr lbl.

(** A capital letter among the code points 0 to 255. *)
Definition capital (c : ascii) : Prop :=
  (65 ≤ nat_of_ascii c ≤ 90)%nat ∨
  ((192 ≤ nat_of_ascii c ≤ 222)%nat ∧ nat_of_ascii c ≠ 215%nat).

(** [t] is [s] in lowercase: every capital letter is replaced by the
    letter 32 code points above it, every other character is kept. *)
Inductive lowercased : string → string → Prop :=
| lowercased_empty : lowercased EmptyString EmptyString
| lowercased_capital c c' s t :
    capital c → nat_of_ascii c' = (nat_of_ascii c + 32)%nat →
    lowercased s t → lowercased (String c s) (String c' t)
| lowercased_other c s t :
    ¬ capital c → lowercased s t → lowercased (String c s) (String c t).

(** A value that is neither text nor a container. *)
Definition scalar (v : json) : Prop :=
  match v with
  | JNull | JBool _ | JNum _ => True
  | _ => False
  end.

(** The entries a view expects in the list it reads: an entry of [types]
    carries a label, an entry of [pokemon] carries a member. *)
Definition type_entry (t : json) : Prop := ∃ lbl, labelled t lbl.
Definition member_entry (p : json) : Prop := ∃ m, py_getitem p "pokemon" = inr m.

(** The body of an entity and of a category as section 4.4 expects them: an
    object whose [types] (whose [pokemon]) is a list of such entries. *)
Definition entity_shape (data : json) : Prop :=
  ∃ fields entries, data = JObj fields ∧
    assoc "types" fields = Some (JArr entries) ∧ Forall type_entry entries.
Definition members_shape (data : json) : Prop :=
  ∃ fields entries, data = JObj fields ∧
    assoc "pokemon" fields = Some (JArr entries) ∧ Forall member_entry entries.

(** The decoded bodies in which a view cannot read the list under [key]:
    the body is not an object; the value under [key] is a scalar, a text
    that is not empty, or an object that is not empty; or it is a list with
    an entry that is not as expected. *)
Inductive unreadable (key : string) (entry : json → Prop) : json → Prop :=
| unreadable_body data :
    (∀ fields, data ≠ JObj fields) → unreadable key entry data
| unreadable_scalar fields v :
    assoc key fields = Some v → scalar v → unreadable key entry (JObj fields)
| unreadable_text fields s :
    assoc key fields = Some (JStr s) → s ≠ EmptyString →
    unreadable key entry (JObj fields)
| unreadable_object fields inner :
    assoc key fields = Some (JObj inner) → inner ≠ [] →
    unreadable key entry (JObj fields)
| unreadable_entry fields entries x :
    assoc key fields = Some (JArr entries) → x ∈ entries → ¬ entry x →
    unreadable key entry (JObj fields).

(** A fault of the upstream interaction: the request fails, the body of a
    200 reply cannot be decoded, or its decoded body is unreadable. *)
Inductive transport_fault (key : string) (entry : json → Prop) : upstream_reply → Prop :=
| fault_network : transport_fault key entry Unreachable
| fault_undecodable : transport_fault key entry (Reply 200 None)
| fault_shape data :
    unreadable key entry data → transport_fault key entry (Reply 200 (Some data)).

(** The three protected routes, for a given configuration and upstream. *)
Definition protected (base : string) (allow : list string)
    (upstream : string → upstream_reply) (randbelow : nat → nat) : list view :=
  [ get_pokemon_type base allow upstream;
    get_random_pokemon_by_type base allow upstream randbelow;
    get_longest_name_pokemon base allow upstream ].

(** The two routes that query a category. *)
Definition category_routes (base : string) (allow : list string)
    (upstream : string → upstream_reply) (randbelow : nat → nat) : list view :=
  [ get_random_pokemon_by_type base allow upstream randbelow;
    get_longest_name_pokemon base allow upstream ].

(** The URL a view requests for a parameter value. *)
Definition pokemon_url (base name : string) : string :=
  base ++ "/pokemon/" ++ lower name.
Definition type_url (base pokemon_type : string) : string :=
  base ++ "/type/" ++ lower pokemon_type.

(** The fixed bodies of the error taxonomy. *)
Definition internal_error : http_response :=
  Jsonify (error_body "Error interno del servidor") 500.
Definition type_not_found : http_response :=
  Jsonify (error_body "Tipo no encontrado") 404.
Definition type_without_members : http_response :=
  Jsonify (error_body "No se encontraron Pokemon para este tipo") 404.
Definition pokemon_not_found : http_response :=
  Jsonify (error_body "Pokemon no encontrado") 404.
Definition missing_parameter (p : string) : http_response :=
  Jsonify (error_body ("Falta el parametro '" ++ p ++ "'")) 400.

(** ** A stub catalog and sample requests *)

Definition sample_base : string := "https://pokeapi.co/api/v2".
Definition sample_allow : list string := ["ash@kanto.org"].

Definition session_of (email : json) : gmap string (gmap string json) :=
  {[ "user" := {[ "email" := email ]} ]}.

Definition entity (name : string) : json :=
  JObj [("name", JStr name)].
Definition members_body (members : list json) : json :=
  JObj [("pokemon", JArr (map (λ m, JObj [("pokemon", m); ("slot", JNum 1)]) members))].
Definition types_body (labels : list string) : json :=
  JObj [("types",
         JArr (map (λ l, JObj [("slot", JNum 1); ("type", JObj [("name", JStr l)])]) labels))].

Definition sample_catalog (url : string) : upstream_reply :=
  if String.eqb url (sample_base ++ "/pokemon/pikachu") then
    Reply 200 (Some (types_body ["electric"]))
  else if String.eqb url (sample_base ++ "/type/water") then
    Reply 200 (Some (members_body [entity "squirtle"; entity "wartortle"; entity "blastoise"]))
  else if String.eqb url (sample_base ++ "/type/tie") then
    Reply 200 (Some (members_body [entity "aa"; entity "bb"]))
  else if String.eqb url (sample_base ++ "/type/fire") then
    Reply 200 (Some (members_body [entity "a"; entity "b"; entity "c"]))
  else if String.eqb url (sample_base ++ "/type/void") then
    Reply 200 (Some (members_body []))
  else if String.eqb url (sample_base ++ "/type/garbled") then
    Reply 200 None
  else if String.eqb url (sample_base ++ "/type/down") then
    Unreachable
  else if String.eqb url (sample_base ++ "/pokemon/down") then
    Unreachable
  else Reply 503 None.

Definition empty_world : world := World [] [].

Definition sample_request (email : json) (param value : string) : request :=
  Request (session_of email) {[ param := value ]}.

(** ** Login callback, logout and the user loader

    These views write the session, so they run on a state that holds the
    session next to the world. *)

Record app_state : Type := AppState {
  stored : gmap string (gmap string json);   (* the session *)
  outside : world
}.

Definition MS (A : Type) : Type := app_state → result A * app_state.

#[global] Instance MS_ret : MRet MS := λ A a st, (inr a, st).
#[global] Instance MS_bind : MBind MS := λ A B k m st,
  match m st with
  | (inl e, st') => (inl e, st')
  | (inr a, st') => k a st'
  end.

Definition in_world {A} (m : M A) : MS A :=
  λ st, match m (outside st) with
        | (r, w') => (r, AppState (stored st) w')
        end.

Definition try_except_s {A} (body : MS A) (handler : exn → MS A) : MS A :=
  λ st, match body st with
        | (inl e, st') => handler e st'
        | (inr a, st') => (inr a, st')
        end.

(** [session[k] = v], [session.clear()] and a function that rewrites the
    session in place. *)
Definition session_set (k : string) (v : gmap string json) : MS unit :=
  λ st, (inr tt, AppState (<[k := v]> (stored st)) (outside st)).
Definition session_clear : MS unit :=
  λ st, (inr tt, AppState ∅ (outside st)).
Definition session_update
    (f : gmap string (gmap string json) → gmap string (gmap string json)) : MS unit :=
  λ st, (inr tt, AppState (f (stored st)) (outside st)).

(** [d[k]] on a dictionary of claims. *)
Definition claim (d : gmap string json) (k : string) : result json :=
  match d !! k with
  | Some v => inr v
  | None => inl KeyError
  end.

(** Truth value of a dictionary: it is not empty. *)
Definition dict_truthy (d : gmap string json) : bool := negb (size d =? 0)%nat.

(** Lines 50-54: [class User]. *)
Record User : Type := new_User {
  User_id : json;
  User_name : json;
  User_email : json
}.

(** Lines 57-64. The loader reads the session and writes the log. *)
Definition load_user (user_id : json) (session : gmap string (gmap string json))
    : M (option User) :=
  match session !! "user" with
  | Some user_session =>
      if dict_truthy user_session then
        logging INFO [Text "Cargando usuario: ";
                      Field (default JNull (user_session !! "email"))];;
        name ← lift (claim user_session "name");
        email ← lift (claim user_session "email");
        mret (Some (new_User user_id name email))
      else
        logging WARNING [Text "No se encontro informacion de usuario en la sesion"];;
        mret None
  | None =>
      logging WARNING [Text "No se encontro informacion de usuario en la sesion"];;
      mret None
  end.

Section Auth.

(** [app.config] entries, the identity provider as the callback sees it (the
    outcome of the token exchange and of the userinfo request, decoded), and
    [flask_login.login_user] as a rewriting of the session. *)
Variable AUTH0_DOMAIN : string.
Variable AUTH0_CLIENT_ID : string.
Variable authorize_access_token : result json.
Variable userinfo : result (gmap string json).
Variable login_user : User → gmap string (gmap string json) → gmap string (gmap string json).

(** Lines 83-89: the [try] block of [callback]. *)
Definition callback_try : MS http_response :=
  token ← (λ st, (authorize_access_token, st));
  user_info ← (λ st, (userinfo, st));
  session_set "user" user_info;;
  sub ← (λ st, (claim user_info "sub", st));
  name ← (λ st, (claim user_info "name", st));
  email ← (λ st, (claim user_info "email", st));
  let user := new_User sub name email in
  session_update (login_user user);;
  in_world (logging INFO [Text "Usuario autenticado: "; Field (User_email user)]);;
  target ← in_world (lift (url_for "dashboard"));
  mret (Redirect target).

(** Lines 90-92: its [except] clause. *)
Definition callback_except (e : exn) : MS http_response :=
  in_world (logging EXCEPTION [Text "Error durante el callback de autenticacion"]);;
  mret (Jsonify (error_body "Error en el proceso de autenticacion") 500).

(** Lines 79-92. *)
Definition callback : MS http_response :=
  in_world (logging INFO [Text "Callback recibido de Auth0"]);;
  try_except_s callback_try callback_except.

(** Lines 102-108. *)
Definition logout : MS http_response :=
  in_world (logging INFO [Text "Cerrando sesion del usuario"]);;
  session_clear;;
  mret (Redirect ("https://" ++ AUTH0_DOMAIN ++ "/v2/logout?client_id="
                    ++ AUTH0_CLIENT_ID ++ "&returnTo=http://localhost:5000")).

End Auth.

(** ** The decorator on an arbitrary session

    The callback stores whatever the provider returned, so the entry under
    ["user"] may be any decoded value. *)

(** [k in v] for a string [k]: a key of a dictionary, a substring of a
    text, an item of a list; nothing else can be searched. *)
Definition py_contains (v : json) (k : string) : result bool :=
  match v with
  | JObj fields =>
      inr (match assoc k fields with Some _ => true | None => false end)
  | JStr s =>
      inr (match index 0 k s with Some _ => true | None => false end)
  | JArr items =>
      inr (existsb (λ x, match x with JStr s => String.eqb s k | _ => false end) items)
  | _ => inl TypeError
  end.

(** Lines 116-123, on a session whose entries are decoded values; [f] is
    the call of the wrapped function at line 123. *)
Definition requiere_autorizacion_raw (EMAILS_PERMITIDOS : list string)
    (f : M http_response) (session : gmap string json) : M http_response :=
  match session !! "user" with
  | None =>
      logging WARNING [Text "Acceso denegado: usuario no autenticado"];;
      target ← lift (url_for "login");
      mret (Redirect target)
  | Some user =>
      present ← lift (py_contains user "email");
      if negb present then
        logging WARNING [Text "Acceso denegado: usuario no autenticado"];;
        target ← lift (url_for "login");
        mret (Redirect target)
      else
        email ← lift (py_getitem user "email");
        if negb (py_in email EMAILS_PERMITIDOS) then
          logging WARNING [Text "Acceso denegado para el email: "; Field email];;
          mret (Abort 403)
        else f
  end.

(** The dictionaries among the entries of a session. *)
Definition claims_of (v : json) : option (gmap string json) :=
  match v with
  | JObj fields => Some (list_to_map fields)
  | _ => None
  end.
Definition typed_session (session : gmap string json) : gmap string (gmap string json) :=
  omap claims_of session.

(** The three protected routes on an arbitrary session. The views read the
    query parameters only. *)
Definition protected_raw (base : string) (allow : list string)
    (upstream : string → upstream_reply) (randbelow : nat → nat)
    (session : gmap string json) (query : gmap string string)
    : list (M http_response) :=
  let req := Request (typed_session session) query in
  [ requiere_autorizacion_raw allow (get_pokemon_type_view base upstream req) session;
    requiere_autorizacion_raw allow
      (get_random_pokemon_by_type_view base upstream randbelow req) session;
    requiere_autorizacion_raw allow (get_longest_name_pokemon_view base upstream req)
      session ].

(** The entries under ["user"] on which lines 117 and 120 raise: a scalar
    cannot be searched; a text that holds [email] and a list that holds the
    item ["email"] pass line 117 and cannot be subscripted at line 120. *)
Definition gate_raises (user : json) : Prop :=
  match user with
  | JNull | JBool _ | JNum _ => True
  | JStr s => ∃ m, substring m 5 s = "email"
  | JArr items => JStr "email" ∈ items
  | JObj _ => False
  end.

(** ** Further contracts *)

(** [sep.join(l)], the inverse of [split]. *)
Fixpoint join (sep : ascii) (l : list string) : string :=
  match l with
  | [] => EmptyString
  | x :: rest =>
      match rest with
      | [] => x
      | _ :: _ => x ++ String sep (join sep rest)
      end
  end.

(** The character [c] occurs in [s]. *)
Fixpoint occurs (c : ascii) (s : string) : bool :=
  match s with
  | EmptyString => false
  | String c' rest => Ascii.eqb c' c || occurs c rest
  end.

(** The answers of the error taxonomy that carry a fixed message. *)
Definition fixed_errors : list http_response :=
  [ missing_parameter "name"; missing_parameter "type"; pokemon_not_found;
    type_not_found; type_without_members; internal_error ].

(** The answers a protected route can give. *)
Definition in_taxonomy (r : http_response) : Prop :=
  r = Redirect "/login" ∨ r = Abort 403 ∨
  (∃ payload, r = Jsonify payload 200) ∨ r ∈ fixed_errors.

(** An answer that is given after the upstream was consulted. *)
Definition consults (r : http_response) : bool :=
  match r with
  | Jsonify _ status => (status =? 200) || (status =? 404) || (status =? 500)
  | _ => false
  end.

(** The level of the log record that goes with an answer. *)
Definition expected_level (r : http_response) : level :=
  match r with
  | Redirect _ | Abort _ => WARNING
  | Jsonify _ status =>
      if status =? 200 then INFO
      else if status =? 500 then EXCEPTION
      else ERROR
  end.

(** The level of the last record of the log. *)
Definition last_level (w : world) : option level := fst <$> last (logged w).

(** How an answer [r] given in world [w'] to a request received in world [w]
    stands to the upstream and to the log: the answer is of the taxonomy,
    the upstream was asked once or not at all according to the answer, the
    last log record has the level of the answer, and the log was extended. *)
Definition settled (w : world) (r : http_response) (w' : world) : Prop :=
  in_taxonomy r ∧
  (if consults r then ∃ url, calls w' = (calls w ++ [url])%list
   else calls w' = calls w) ∧
  last_level w' = Some (expected_level r) ∧
  logged w `prefix_of` logged w'.

(** A login flow used as sample: the claims of the provider and a
    [login_user] that records the identifier under a key of its own. *)
Definition sample_userinfo : gmap string json :=
  {[ "sub" := JStr "auth0|1"; "name" := JStr "Ash"; "email" := JStr "ash@kanto.org" ]}.
Definition sample_login_user (u : User)
    (s : gmap string (gmap string json)) : gmap string (gmap string json) :=
  <["_user_id" := {[ "value" := User_id u ]}]> s.
Definition sample_state : app_state :=
  AppState (session_of (JStr "gary@kanto.org")) empty_world.

(** Unfolding the operations of [M] in a goal. *)
Ltac run :=
  unfold mbind, M_bind, bind, mret, M_ret, ret, lift, logging, try_except,
    requests_get, response_json; simpl.

(** Closing a goal [∃ r, x.1 = inr r ∧ settled w r x.2] on a computed [x]. *)
Ltac settle_taxonomy :=
  unfold in_taxonomy, fixed_errors;
  first [ by left
        | by right; left
        | by right; right; left; eexists
        | right; right; right;
          repeat first [ apply list_elem_of_here | apply list_elem_of_further ] ].

Ltac settle :=
  eexists; split; [reflexivity|];
  split; [settle_taxonomy|];
  split; [simpl; first [reflexivity | eexists; reflexivity]|];
  split; [unfold last_level; simpl; by rewrite last_snoc
         | simpl; repeat apply prefix_app_r; reflexivity].

(** Unfolding the operations of [MS] in a goal. *)
Ltac run_s :=
  unfold try_except_s, in_world, session_set, session_clear, session_update,
    mbind, MS_bind, M_bind, bind, mret, MS_ret, M_ret, ret, lift, logging, claim;
  simpl.

(** * Properties *)

(** ** The authorization gate *)

Section Gate.

Variable allow : list string.
Variable f : view.

Lemma py_in_on_allow_list email :
  py_in email allow = bool_decide (on_allow_list allow email).
Proof.
  destruct email; reflexivity.
Qed.

Lemma gate_unauthenticated req w :
  email_claim (session req) = None →
  requiere_autorizacion allow f req w =
    (inr (Redirect "/login"),
     World (calls w)
       (logged w ++ [(WARNING, [Text "Acceso denegado: usuario no autenticado"])])).
Proof.
  unfold email_claim, requiere_autorizacion.
  destruct (session req !! "user") as [user|]; simpl; [|reflexivity].
  intros ->. reflexivity.
Qed.

Lemma gate_forbidden req w email :
  email_claim (session req) = Some email →
  ¬ on_allow_list allow email →
  requiere_autorizacion allow f req w =
    (inr (Abort 403),
     World (calls w)
       (logged w ++ [(WARNING, [Text "Acceso denegado para el email: "; Field email])])).
Proof.
  unfold email_claim, requiere_autorizacion.
  destruct (session req !! "user") as [user|]; simpl; [|discriminate].
  intros -> Hout. rewrite py_in_on_allow_list, bool_decide_eq_false_2 by done.
  reflexivity.
Qed.

Lemma gate_allowed req w email :
  email_claim (session req) = Some email →
  on_allow_list allow email →
  requiere_autorizacion allow f req w = f req w.
Proof.
  unfold email_claim, requiere_autorizacion.
  destruct (session req !! "user") as [user|]; simpl; [|discriminate].
  intros -> Hin. rewrite py_in_on_allow_list, bool_decide_eq_true_2 by done.
  reflexivity.
Qed.

(** Whatever the gate does not let through leaves the upstream alone. *)
Lemma gate_denied_no_call req w :
  authorize allow (session req) ≠ Allow →
  calls (requiere_autorizacion allow f req w).2 = calls w.
Proof.
  unfold authorize. intros Hdeny.
  destruct (email_claim (session req)) as [email|] eqn:Hclaim.
  - destruct (decide (on_allow_list allow email)) as [|Hout]; [done|].
    by rewrite (gate_forbidden _ _ _ Hclaim Hout).
  - by rewrite (gate_unauthenticated _ _ Hclaim).
Qed.

Lemma gate_allow_runs req w :
  authorize allow (session req) = Allow →
  requiere_autorizacion allow f req w = f req w.
Proof.
  unfold authorize.
  destruct (email_claim (session req)) as [email|] eqn:Hclaim; [|done].
  destruct (decide (on_allow_list allow email)) as [Hin|]; [|done].
  intros _. by apply gate_allowed with email.
Qed.

End Gate.

(** C1. The decorator follows the rule of the gate in its order: without a
    session or without an email claim the request is redirected to the
    login route; otherwise, when the email is not exactly an entry of the
    allow-list, it is aborted with 403; otherwise the wrapped view runs. In
    the two denials no upstream request is issued. *)
Theorem requiere_autorizacion_decision (allow : list string) (f : view)
    (req : request) (w : world) :
  match authorize allow (session req) with
  | DenyUnauthenticated =>
      (requiere_autorizacion allow f req w).1 = inr (Redirect "/login") ∧
      calls (requiere_autorizacion allow f req w).2 = calls w
  | DenyForbidden =>
      (requiere_autorizacion allow f req w).1 = inr (Abort 403) ∧
      calls (requiere_autorizacion allow f req w).2 = calls w
  | Allow => requiere_autorizacion allow f req w = f req w
  end.
Proof.
  unfold authorize.
  destruct (email_claim (session req)) as [email|] eqn:Hclaim.
  - destruct (decide (on_allow_list allow email)) as [Hin|Hout].
    + by apply gate_allowed with email.
    + by rewrite (gate_forbidden allow f req w email).
  - by rewrite gate_unauthenticated.
Qed.

(** Membership is case-sensitive: another capitalisation of a listed
    address is refused. *)
Example authorize_case_sensitive :
  authorize ["ash@kanto.org"] (session_of (JStr "Ash@kanto.org")) = DenyForbidden ∧
  authorize ["ash@kanto.org"] (session_of (JStr "ash@kanto.org")) = Allow ∧
  authorize ["ash@kanto.org"] ∅ = DenyUnauthenticated ∧
  authorize ["ash@kanto.org"] {[ "user" := ∅ ]} = DenyUnauthenticated.
Proof. repeat split; vm_compute; reflexivity. Qed.

(** C2. On each of the three protected routes, a session whose email is not
    on the allow-list is answered with 403 and no upstream request is
    issued, whatever the upstream would have replied; and no route issues an
    upstream request unless the gate decides [Allow]. *)
Theorem denied_makes_no_upstream_call (base : string) (allow : list string)
    (upstream : string → upstream_reply) (randbelow : nat → nat)
    (endpoint : view) (req : request) (w : world) :
  endpoint ∈ protected base allow upstream randbelow →
  (∀ email, email_claim (session req) = Some email →
     ¬ on_allow_list allow email →
     (endpoint req w).1 = inr (Abort 403) ∧ calls (endpoint req w).2 = calls w) ∧
  (authorize allow (session req) ≠ Allow → calls (endpoint req w).2 = calls w).
Proof.
  intros Hroute.
  assert (∃ f, endpoint = requiere_autorizacion allow f) as [f ->].
  { unfold protected in Hroute.
    rewrite !elem_of_cons, elem_of_nil in Hroute.
    destruct Hroute as [->|[->|[->|[]]]]; eexists; reflexivity. }
  split.
  - intros email Hclaim Hout.
    by rewrite (gate_forbidden allow f req w email).
  - apply gate_denied_no_call.
Qed.

Lemma denied_makes_no_upstream_call_witness :
  (get_pokemon_type sample_base sample_allow sample_catalog
     (sample_request (JStr "gary@kanto.org") "name" "pikachu") empty_world).1
    = inr (Abort 403) ∧
  calls (get_pokemon_type sample_base sample_allow sample_catalog
     (sample_request (JStr "gary@kanto.org") "name" "pikachu") empty_world).2 = [].
Proof.
  destruct (denied_makes_no_upstream_call sample_base sample_allow sample_catalog
              (λ _, 0%nat) (get_pokemon_type sample_base sample_allow sample_catalog)
              (sample_request (JStr "gary@kanto.org") "name" "pikachu") empty_world)
    as [Hforbidden _].
  - apply list_elem_of_here.
  - apply (Hforbidden (JStr "gary@kanto.org")).
    + reflexivity.
    + simpl. intros Hin. apply list_elem_of_singleton in Hin. discriminate Hin.
Defined.

(** A session without an email claim is never let through, whatever the
    allow-list; and a claim that is the empty string is refused by every
    allow-list that has no empty entry. *)
Lemma authorize_needs_email_claim (allow : list string)
    (s : gmap string (gmap string json)) :
  email_claim s = None → authorize allow s = DenyUnauthenticated.
Proof. unfold authorize. by intros ->. Qed.

Lemma authorize_empty_email (allow : list string)
    (s : gmap string (gmap string json)) :
  email_claim s = Some (JStr "") →
  authorize allow s = Allow ↔ "" ∈ allow.
Proof.
  unfold authorize. intros ->. simpl.
  destruct (decide ("" ∈ allow)) as [Hin|Hout]; split; try done.
Qed.

(** The allow-list of line 23 always holds at least one entry, and holds
    the empty string when the variable is unset or empty. *)
Lemma split_not_empty (sep : ascii) (s : string) : split sep s ≠ [].
Proof.
  destruct s as [|c rest]; simpl; [done|].
  destruct (Ascii.eqb c sep); [done|]. by destruct (split sep rest).
Qed.

(** C3, at the input where it fails. With [EMAILS_PERMITIDOS] unset in the
    environment the allow-list of line 23 is the one-entry list holding the
    empty string, and a session whose email claim is the empty string is let
    through to the wrapped view: the type route then queries the upstream and
    answers 200. *)
Theorem empty_email_passes_unconfigured_gate (f : view) (query : gmap string string)
    (w : world) :
  EMAILS_PERMITIDOS_env None = [""] ∧
  authorize (EMAILS_PERMITIDOS_env None) (session_of (JStr "")) = Allow ∧
  requiere_autorizacion (EMAILS_PERMITIDOS_env None) f
    (Request (session_of (JStr "")) query) w
  = f (Request (session_of (JStr "")) query) w ∧
  get_pokemon_type sample_base (EMAILS_PERMITIDOS_env None) sample_catalog
    (sample_request (JStr "") "name" "pikachu") empty_world
  = (inr (Jsonify (JObj [("name", JStr "pikachu");
                         ("types", JArr [JStr "electric"])]) 200),
     World [(sample_base ++ "/pokemon/pikachu")%string]
       [(INFO, [Text "Solicitud de tipos para Pokemon: "; Field (JStr "pikachu")]);
        (INFO, [Text "Tipos encontrados para "; Field (JStr "pikachu");
                Text ": "; Field (JArr [JStr "electric"])])]).
Proof.
  split; [reflexivity|]. split; [reflexivity|]. split; [reflexivity|].
  vm_compute. reflexivity.
Qed.

(** ** Reading the upstream body *)

Lemma rmap_raises {A B} (f : A → result B) (l : list A) (x : A) (e : exn) :
  x ∈ l → f x = inl e → ∃ e', rmap f l = inl e'.
Proof.
  induction l as [|y rest IH]; intros Hin Hx.
  - by apply elem_of_nil in Hin.
  - simpl. destruct (f y) as [e'|b] eqn:Hy; simpl; [by eexists|].
    apply elem_of_cons in Hin as [->|Hin]; [congruence|].
    destruct (IH Hin Hx) as [e' ->]. by eexists.
Qed.

Lemma rmap_raises_inv {A B} (f : A → result B) (l : list A) (e : exn) :
  rmap f l = inl e → ∃ x e', x ∈ l ∧ f x = inl e'.
Proof.
  revert e. induction l as [|y rest IH]; intros e; simpl; [done|].
  destruct (f y) as [e'|b] eqn:Hy; simpl.
  - intros _. exists y, e'. split; [apply list_elem_of_here | done].
  - destruct (rmap f rest) as [e'|bs]; simpl; [|done].
    intros _. destruct (IH e' eq_refl) as (x & e'' & Hx & Hfx).
    exists x, e''. split; [by apply list_elem_of_further | done].
Qed.

Section Unreadable.

Variable key : string.
Variable entry : json → Prop.
Variable f : json → result json.
Hypothesis f_entry : ∀ x, entry x ↔ ∃ y, f x = inr y.
Hypothesis text_no_entry : ∀ s, ¬ entry (JStr s).

Lemma no_entry_raises x : ¬ entry x → ∃ e, f x = inl e.
Proof.
  intros Hx. destruct (f x) as [e|y] eqn:Hfx; [by exists e|].
  destruct Hx. apply f_entry. by exists y.
Qed.

(** The list under [key] cannot be read exactly from the unreadable
    bodies. *)
Lemma unreadable_raises data :
  unreadable key entry data ↔
  ∃ e, rbind (rbind (py_get data key (JArr [])) py_iter) (rmap f) = inl e.
Proof.
  split.
  - intros [data' Hbody|fields v Hv Hscalar|fields s Hv Hs|fields inner Hv Hinner
           |fields entries x Hv Hx Hbad].
    + destruct data'; simpl; eauto. by destruct (Hbody fields).
    + simpl. rewrite Hv. destruct v; simpl in *; try done; eauto.
    + simpl. rewrite Hv. destruct s as [|c rest]; [done|]. simpl.
      destruct (no_entry_raises (JStr (String c EmptyString))) as [e ->];
        [apply text_no_entry|]. simpl. eauto.
    + simpl. rewrite Hv. destruct inner as [|[k v] rest]; [done|]. simpl.
      destruct (no_entry_raises (JStr k)) as [e ->]; [apply text_no_entry|].
      simpl. eauto.
    + simpl. rewrite Hv. simpl.
      destruct (no_entry_raises x Hbad) as [e He].
      by apply rmap_raises with x e.
  - intros [e Hraise].
    destruct data as [| | | |items|fields];
      try (apply unreadable_body; intros fields; discriminate).
    simpl in Hraise. destruct (assoc key fields) as [v|] eqn:Hv; [|done].
    destruct v as [| | |s|entries|inner]; simpl in Hraise.
    + by apply unreadable_scalar with JNull.
    + by apply unreadable_scalar with (JBool b).
    + by apply unreadable_scalar with (JNum n).
    + apply unreadable_text with s; [done|]. by intros ->.
    + destruct (rmap_raises_inv f entries e Hraise) as (x & e' & Hx & Hfx).
      apply unreadable_entry with entries x; [done..|].
      intros [y Hy]%f_entry. congruence.
    + apply unreadable_object with inner; [done|]. by intros ->.
Qed.

End Unreadable.

Lemma unreadable_types data :
  unreadable "types" type_entry data ↔ ∃ e, extract_types data = inl e.
Proof.
  apply unreadable_raises.
  - intros x. unfold type_entry, labelled. split.
    + intros (lbl & ty & Hty & Hlbl). exists lbl. by rewrite Hty.
    + intros [lbl Hlbl]. exists lbl.
      destruct (py_getitem x "type") as [e|ty] eqn:Hty; [done|]. by exists ty.
  - intros s (lbl & ty & Hty & _). discriminate Hty.
Qed.

Lemma unreadable_pokemons data :
  unreadable "pokemon" member_entry data ↔ ∃ e, extract_pokemons data = inl e.
Proof.
  apply unreadable_raises.
  - done.
  - intros s [m Hm]. discriminate Hm.
Qed.

(** A body of the expected shape is readable. *)
Lemma shape_readable key entry data fields entries :
  data = JObj fields → assoc key fields = Some (JArr entries) →
  Forall entry entries → ¬ unreadable key entry data.
Proof.
  intros -> Hv Hall Hbad. rewrite Forall_forall in Hall.
  inversion Hbad as [data' Hbody|fields' v Hv' Hscalar|fields' s Hv' Hs
                    |fields' inner Hv' Hinner|fields' entries' x Hv' Hx Hno];
    subst.
  - by destruct (Hbody fields).
  - rewrite Hv in Hv'. injection Hv' as <-. exact Hscalar.
  - rewrite Hv in Hv'. discriminate Hv'.
  - rewrite Hv in Hv'. discriminate Hv'.
  - rewrite Hv in Hv'. injection Hv' as <-. by apply Hno, Hall.
Qed.

(** ** Running the views *)

Section Views.

Variable base : string.
Variable upstream : string → upstream_reply.
Variable randbelow : nat → nat.

(** *** The parameter check *)

Lemma type_view_missing req w :
  args req !! "name" = None ∨ args req !! "name" = Some "" →
  (get_pokemon_type_view base upstream req w).1 = inr (missing_parameter "name") ∧
  calls (get_pokemon_type_view base upstream req w).2 = calls w.
Proof.
  unfold get_pokemon_type_view. intros [-> | ->]; run; done.
Qed.

Lemma random_view_missing req w :
  args req !! "type" = None ∨ args req !! "type" = Some "" →
  (get_random_pokemon_by_type_view base upstream randbelow req w).1
    = inr (missing_parameter "type") ∧
  calls (get_random_pokemon_by_type_view base upstream randbelow req w).2 = calls w.
Proof.
  unfold get_random_pokemon_by_type_view. intros [-> | ->]; run; done.
Qed.

Lemma longest_view_missing req w :
  args req !! "type" = None ∨ args req !! "type" = Some "" →
  (get_longest_name_pokemon_view base upstream req w).1 = inr (missing_parameter "type") ∧
  calls (get_longest_name_pokemon_view base upstream req w).2 = calls w.
Proof.
  unfold get_longest_name_pokemon_view. intros [-> | ->]; run; done.
Qed.

Lemma type_view_present req w name :
  args req !! "name" = Some name → name ≠ "" →
  get_pokemon_type_view base upstream req w =
    try_except (get_pokemon_type_try base upstream name) get_pokemon_type_except
      (World (calls w)
         (logged w ++ [(INFO, [Text "Solicitud de tipos para Pokemon: ";
                               Field (JStr name)])])).
Proof.
  unfold get_pokemon_type_view. intros -> Hname.
  destruct name; [done|]. reflexivity.
Qed.

Lemma random_view_present req w ty :
  args req !! "type" = Some ty → ty ≠ "" →
  get_random_pokemon_by_type_view base upstream randbelow req w =
    try_except (get_random_pokemon_by_type_try base upstream randbelow ty)
      get_random_pokemon_by_type_except
      (World (calls w)
         (logged w ++ [(INFO, [Text "Solicitud de Pokemon aleatorio para el tipo: ";
                               Field (JStr ty)])])).
Proof.
  unfold get_random_pokemon_by_type_view. intros -> Hty.
  destruct ty; [done|]. reflexivity.
Qed.

Lemma longest_view_present req w ty :
  args req !! "type" = Some ty → ty ≠ "" →
  get_longest_name_pokemon_view base upstream req w =
    try_except (get_longest_name_pokemon_try base upstream ty)
      get_longest_name_pokemon_except
      (World (calls w)
         (logged w ++ [(INFO, [Text "Solicitud de Pokemon con nombre mas largo para el tipo: ";
                               Field (JStr ty)])])).
Proof.
  unfold get_longest_name_pokemon_view. intros -> Hty.
  destruct ty; [done|]. reflexivity.
Qed.

(** *** One upstream request per [try] block *)

Lemma type_try_calls name w :
  calls (get_pokemon_type_try base upstream name w).2 = (calls w ++ [pokemon_url base name])%list.
Proof.
  unfold get_pokemon_type_try, pokemon_url. run.
  destruct (upstream _) as [|st [data|]]; simpl; [done| |].
  - destruct (st =? 200); simpl; [|done].
    destruct (extract_types data); done.
  - destruct (st =? 200); done.
Qed.

Lemma random_try_calls ty w :
  calls (get_random_pokemon_by_type_try base upstream randbelow ty w).2
    = (calls w ++ [type_url base ty])%list.
Proof.
  unfold get_random_pokemon_by_type_try, type_url. run.
  destruct (upstream _) as [|st [data|]]; simpl; [done| |].
  - destruct (st =? 200); simpl; [|done].
    destruct (extract_pokemons data) as [|[|m members]]; simpl; [done..|].
    destruct (random_choice _ _) as [|chosen]; simpl; [done|].
    destruct (py_getitem chosen "name"); done.
  - destruct (st =? 200); done.
Qed.

Lemma longest_try_calls ty w :
  calls (get_longest_name_pokemon_try base upstream ty w).2 = (calls w ++ [type_url base ty])%list.
Proof.
  unfold get_longest_name_pokemon_try, type_url. run.
  destruct (upstream _) as [|st [data|]]; simpl; [done| |].
  - destruct (st =? 200); simpl; [|done].
    destruct (extract_pokemons data) as [|[|m members]]; simpl; [done..|].
    destruct (rbind (name_length m) _) as [|chosen]; simpl; [done|].
    destruct (py_getitem chosen "name"); done.
  - destruct (st =? 200); done.
Qed.

(** *** Outcomes of the [try] blocks, by upstream reply *)

Lemma type_try_not_found name w st b :
  upstream (pokemon_url base name) = Reply st b → st ≠ 200 →
  get_pokemon_type_try base upstream name w =
    (inr pokemon_not_found,
     World (calls w ++ [pokemon_url base name])
       (logged w ++ [(ERROR, [Text "Pokemon "; Field (JStr name);
                              Text " no encontrado (status code: ";
                              Field (JNum st); Text ")"])])).
Proof.
  unfold get_pokemon_type_try, pokemon_url. intros Hreply Hst. run.
  rewrite Hreply. simpl. by destruct (Z.eqb_spec st 200).
Qed.

Lemma type_try_fault name w :
  transport_fault "types" type_entry (upstream (pokemon_url base name)) →
  ∃ e, get_pokemon_type_try base upstream name w =
         (inl e, World (calls w ++ [pokemon_url base name]) (logged w)).
Proof.
  unfold get_pokemon_type_try, pokemon_url. intros Hfault. run.
  destruct Hfault as [| |data Hbad]; simpl; eauto.
  apply unreadable_types in Hbad as [e Hshape]. rewrite Hshape. eauto.
Qed.

Lemma type_try_success name w data types :
  upstream (pokemon_url base name) = Reply 200 (Some data) →
  extract_types data = inr types →
  get_pokemon_type_try base upstream name w =
    (inr (Jsonify (JObj [("name", JStr name); ("types", JArr types)]) 200),
     World (calls w ++ [pokemon_url base name])
       (logged w ++ [(INFO, [Text "Tipos encontrados para "; Field (JStr name);
                             Text ": "; Field (JArr types)])])).
Proof.
  unfold get_pokemon_type_try, pokemon_url. intros Hreply Htypes. run.
  rewrite Hreply. simpl. by rewrite Htypes.
Qed.

Lemma random_try_not_found ty w st b :
  upstream (type_url base ty) = Reply st b → st ≠ 200 →
  get_random_pokemon_by_type_try base upstream randbelow ty w =
    (inr type_not_found,
     World (calls w ++ [type_url base ty])
       (logged w ++ [(ERROR, [Text "Tipo "; Field (JStr ty);
                              Text " no encontrado (status code: ";
                              Field (JNum st); Text ")"])])).
Proof.
  unfold get_random_pokemon_by_type_try, type_url. intros Hreply Hst. run.
  rewrite Hreply. simpl. by destruct (Z.eqb_spec st 200).
Qed.

Lemma random_try_no_members ty w data :
  upstream (type_url base ty) = Reply 200 (Some data) →
  extract_pokemons data = inr [] →
  get_random_pokemon_by_type_try base upstream randbelow ty w =
    (inr type_without_members,
     World (calls w ++ [type_url base ty])
       (logged w ++ [(ERROR, [Text "No se encontraron Pokemon para el tipo ";
                              Field (JStr ty)])])).
Proof.
  unfold get_random_pokemon_by_type_try, type_url. intros Hreply Hnone. run.
  rewrite Hreply. simpl. by rewrite Hnone.
Qed.

Lemma random_try_fault ty w :
  transport_fault "pokemon" member_entry (upstream (type_url base ty)) →
  ∃ e, get_random_pokemon_by_type_try base upstream randbelow ty w =
         (inl e, World (calls w ++ [type_url base ty]) (logged w)).
Proof.
  unfold get_random_pokemon_by_type_try, type_url. intros Hfault. run.
  destruct Hfault as [| |data Hbad]; simpl; eauto.
  apply unreadable_pokemons in Hbad as [e Hshape]. rewrite Hshape. eauto.
Qed.

Lemma random_try_success ty w data members chosen name :
  upstream (type_url base ty) = Reply 200 (Some data) →
  extract_pokemons data = inr members →
  members !! randbelow (length members) = Some chosen →
  py_getitem chosen "name" = inr name →
  get_random_pokemon_by_type_try base upstream randbelow ty w =
    (inr (Jsonify chosen 200),
     World (calls w ++ [type_url base ty])
       (logged w ++ [(INFO, [Text "Pokemon aleatorio seleccionado: "; Field name])])).
Proof.
  unfold get_random_pokemon_by_type_try, type_url.
  intros Hreply Hmembers Hdraw Hname. run.
  rewrite Hreply. simpl. rewrite Hmembers.
  destruct members as [|m members]; [done|]. simpl.
  unfold random_choice. rewrite Hdraw. simpl. by rewrite Hname.
Qed.

Lemma longest_try_not_found ty w st b :
  upstream (type_url base ty) = Reply st b → st ≠ 200 →
  get_longest_name_pokemon_try base upstream ty w =
    (inr type_not_found,
     World (calls w ++ [type_url base ty])
       (logged w ++ [(ERROR, [Text "Tipo "; Field (JStr ty);
                              Text " no encontrado (status code: ";
                              Field (JNum st); Text ")"])])).
Proof.
  unfold get_longest_name_pokemon_try, type_url. intros Hreply Hst. run.
  rewrite Hreply. simpl. by destruct (Z.eqb_spec st 200).
Qed.

Lemma longest_try_no_members ty w data :
  upstream (type_url base ty) = Reply 200 (Some data) →
  extract_pokemons data = inr [] →
  get_longest_name_pokemon_try base upstream ty w =
    (inr type_without_members,
     World (calls w ++ [type_url base ty])
       (logged w ++ [(ERROR, [Text "No se encontraron Pokemon para el tipo ";
                              Field (JStr ty)])])).
Proof.
  unfold get_longest_name_pokemon_try, type_url. intros Hreply Hnone. run.
  rewrite Hreply. simpl. by rewrite Hnone.
Qed.

Lemma longest_try_fault ty w :
  transport_fault "pokemon" member_entry (upstream (type_url base ty)) →
  ∃ e, get_longest_name_pokemon_try base upstream ty w =
         (inl e, World (calls w ++ [type_url base ty]) (logged w)).
Proof.
  unfold get_longest_name_pokemon_try, type_url. intros Hfault. run.
  destruct Hfault as [| |data Hbad]; simpl; eauto.
  apply unreadable_pokemons in Hbad as [e Hshape]. rewrite Hshape. eauto.
Qed.


End Views.

(** ** [max] with a key returns the first item of maximal key *)

Section Max.

Local Open Scope nat_scope.

Context {A : Type}.
Variable key : A → result nat.
Variable f : A → nat.





End Max.

(** ** The aggregation views behind the gate *)



Lemma extract_labels entries labels :
  Forall2 labelled entries labels →
  rmap (λ t, rbind (py_getitem t "type") (λ ty, py_getitem ty "name")) entries
  = inr labels.
Proof.
  induction 1 as [|t lbl entries labels (ty & Hty & Hlbl) _ IH]; [done|].
  simpl. rewrite Hty. simpl. rewrite Hlbl. simpl. by rewrite IH.
Qed.



(** C5. On the two category routes every upstream status other than 200
    is answered 404 with the message of an unknown category, and a 200
    reply whose member list is empty is answered 404 with the message of a
    category without members; the two messages differ, in the reply and in
    the log. *)
Theorem category_not_found_outcomes (base : string) (allow : list string)
    (upstream : string → upstream_reply) (randbelow : nat → nat)
    (endpoint : view) (req : request) (w : world) (ty : string) :
  endpoint ∈ category_routes base allow upstream randbelow →
  authorize allow (session req) = Allow →
  args req !! "type" = Some ty → ty ≠ "" →
  (∀ st b, upstream (type_url base ty) = Reply st b → st ≠ 200 →
     (endpoint req w).1 = inr (Jsonify (error_body "Tipo no encontrado") 404) ∧
     last (logged (endpoint req w).2) =
       Some (ERROR, [Text "Tipo "; Field (JStr ty);
                     Text " no encontrado (status code: ";
                     Field (JNum st); Text ")"])) ∧
  (∀ data, upstream (type_url base ty) = Reply 200 (Some data) →
     extract_pokemons data = inr [] →
     (endpoint req w).1 =
       inr (Jsonify (error_body "No se encontraron Pokemon para este tipo") 404) ∧
     last (logged (endpoint req w).2) =
       Some (ERROR, [Text "No se encontraron Pokemon para el tipo ";
                     Field (JStr ty)])) ∧
  error_body "Tipo no encontrado"
    ≠ error_body "No se encontraron Pokemon para este tipo".
Proof.
  intros Hroute Hallow Harg Hty. unfold category_routes in Hroute.
  rewrite !elem_of_cons, elem_of_nil in Hroute.
  split; [|split; [|discriminate]].
  - intros st b Hreply Hst. destruct Hroute as [->|[->|[]]].
    + unfold get_random_pokemon_by_type. rewrite gate_allow_runs by exact Hallow.
      rewrite (random_view_present base upstream randbelow req w ty Harg Hty).
      unfold try_except.
      rewrite (random_try_not_found base upstream randbelow ty _ st b Hreply Hst).
      simpl. split; [reflexivity | apply last_snoc].
    + unfold get_longest_name_pokemon. rewrite gate_allow_runs by exact Hallow.
      rewrite (longest_view_present base upstream req w ty Harg Hty).
      unfold try_except.
      rewrite (longest_try_not_found base upstream ty _ st b Hreply Hst).
      simpl. split; [reflexivity | apply last_snoc].
  - intros data Hreply Hnone. destruct Hroute as [->|[->|[]]].
    + unfold get_random_pokemon_by_type. rewrite gate_allow_runs by exact Hallow.
      rewrite (random_view_present base upstream randbelow req w ty Harg Hty).
      unfold try_except.
      rewrite (random_try_no_members base upstream randbelow ty _ data Hreply Hnone).
      simpl. split; [reflexivity | apply last_snoc].
    + unfold get_longest_name_pokemon. rewrite gate_allow_runs by exact Hallow.
      rewrite (longest_view_present base upstream req w ty Harg Hty).
      unfold try_except.
      rewrite (longest_try_no_members base upstream ty _ data Hreply Hnone).
      simpl. split; [reflexivity | apply last_snoc].
Qed.

Lemma category_not_found_outcomes_witness :
  (get_longest_name_pokemon sample_base sample_allow sample_catalog
     (sample_request (JStr "ash@kanto.org") "type" "ghost") empty_world).1
    = inr (Jsonify (error_body "Tipo no encontrado") 404) ∧
  (get_longest_name_pokemon sample_base sample_allow sample_catalog
     (sample_request (JStr "ash@kanto.org") "type" "void") empty_world).1
    = inr (Jsonify (error_body "No se encontraron Pokemon para este tipo") 404).
Proof.
  split.
  - destruct (category_not_found_outcomes sample_base sample_allow sample_catalog
                (λ _, 0%nat)
                (get_longest_name_pokemon sample_base sample_allow sample_catalog)
                (sample_request (JStr "ash@kanto.org") "type" "ghost") empty_world
                "ghost")
      as (Hstatus & _ & _).
    + apply list_elem_of_further, list_elem_of_here.
    + vm_compute. reflexivity.
    + vm_compute. reflexivity.
    + discriminate.
    + apply (Hstatus 503 None); [vm_compute; reflexivity | discriminate].
  - destruct (category_not_found_outcomes sample_base sample_allow sample_catalog
                (λ _, 0%nat)
                (get_longest_name_pokemon sample_base sample_allow sample_catalog)
                (sample_request (JStr "ash@kanto.org") "type" "void") empty_world
                "void")
      as (_ & Hempty & _).
    + apply list_elem_of_further, list_elem_of_here.
    + vm_compute. reflexivity.
    + vm_compute. reflexivity.
    + discriminate.
    + apply (Hempty (members_body [])); vm_compute; reflexivity.
Defined.

(** [lower] is the lowercase of the contract, character by character. *)
Lemma lower_ascii_capital c :
  capital c → nat_of_ascii (lower_ascii c) = (nat_of_ascii c + 32)%nat.
Proof.
  unfold capital, lower_ascii. intros Hc.
  replace (_ || _)%bool with true.
  - apply nat_ascii_embedding. lia.
  - symmetry. apply orb_true_iff.
    destruct Hc as [[H1 H2]|[[H1 H2] H3]]; [left|right].
    + apply andb_true_iff. split; by apply Nat.leb_le.
    + rewrite !andb_true_iff, negb_true_iff, Nat.eqb_neq.
      repeat split; [by apply Nat.leb_le..|done].
Qed.

Lemma lower_ascii_other c : ¬ capital c → lower_ascii c = c.
Proof.
  unfold capital, lower_ascii. intros Hc.
  replace (_ || _)%bool with false; [done|].
  symmetry. apply orb_false_iff. split.
  - apply andb_false_iff.
    destruct (Nat.leb_spec 65 (nat_of_ascii c)); [right|by left].
    apply Nat.leb_gt. lia.
  - rewrite !andb_false_iff, negb_false_iff, Nat.eqb_eq.
    destruct (Nat.leb_spec 192 (nat_of_ascii c)); [|by left; left].
    destruct (Nat.leb_spec (nat_of_ascii c) 222); [|by left; right].
    right. destruct (decide (nat_of_ascii c = 215%nat)); [done|]. destruct Hc. right. lia.
Qed.

Lemma lower_lowercased s : lowercased s (lower s).
Proof.
  induction s as [|c rest IH]; simpl; [constructor|].
  destruct (decide (capital c)) as [Hc|Hc].
  - apply lowercased_capital; [done| |done]. by apply lower_ascii_capital.
  - rewrite (lower_ascii_other c Hc). by apply lowercased_other.
Qed.

Lemma lowercased_unique s t : lowercased s t → t = lower s.
Proof.
  induction 1 as [|c c' s t Hc Hcode _ IH|c s t Hc _ IH]; simpl; [done| |].
  - rewrite IH. f_equal.
    rewrite <- (ascii_nat_embedding c'), <- (ascii_nat_embedding (lower_ascii c)).
    f_equal. by rewrite Hcode, lower_ascii_capital.
  - by rewrite IH, lower_ascii_other.
Qed.

(** C6. With a non-empty [name], over the code points 0 to 255, the type
    route requests the entity under
    the lowercase form of the name, once: every capital letter replaced by
    its lowercase letter, every other character kept. Any upstream status
    other than 200 is answered 404; on a 200 reply it answers with the name
    as given and the labels of the entity's [types] entries, one per entry,
    in upstream order. *)
Theorem types_of_entity (base : string) (allow : list string)
    (upstream : string → upstream_reply) (req : request) (w : world)
    (name : string) :
  authorize allow (session req) = Allow →
  args req !! "name" = Some name → name ≠ "" →
  lowercased name (lower name) ∧
  calls (get_pokemon_type base allow upstream req w).2
    = (calls w ++ [(base ++ "/pokemon/" ++ lower name)%string])%list ∧
  (∀ st b, upstream (pokemon_url base name) = Reply st b → st ≠ 200 →
     (get_pokemon_type base allow upstream req w).1
       = inr (Jsonify (error_body "Pokemon no encontrado") 404)) ∧
  (∀ data entries labels,
     upstream (pokemon_url base name) = Reply 200 (Some data) →
     py_get data "types" (JArr []) = inr (JArr entries) →
     Forall2 labelled entries labels →
     (get_pokemon_type base allow upstream req w).1
       = inr (Jsonify (JObj [("name", JStr name); ("types", JArr labels)]) 200)).
Proof.
  intros Hallow Harg Hname. split; [apply lower_lowercased|].
  unfold get_pokemon_type. rewrite gate_allow_runs by exact Hallow.
  rewrite (type_view_present base upstream req w name Harg Hname).
  unfold try_except. split; [|split].
  - pose proof (type_try_calls base upstream name
                  (World (calls w)
                     (logged w ++ [(INFO, [Text "Solicitud de tipos para Pokemon: ";
                                           Field (JStr name)])]))) as Hcalls.
    destruct (get_pokemon_type_try _ _ _ _) as [[e|r] w']; exact Hcalls.
  - intros st b Hreply Hst.
    by rewrite (type_try_not_found base upstream name _ st b Hreply Hst).
  - intros data entries labels Hreply Hentries Hlabels.
    rewrite (type_try_success base upstream name _ data labels Hreply); [done|].
    unfold extract_types. rewrite Hentries. simpl.
    by apply extract_labels.
Qed.

Lemma types_of_entity_witness :
  (get_pokemon_type sample_base sample_allow sample_catalog
     (sample_request (JStr "ash@kanto.org") "name" "PikaChu") empty_world).1
    = inr (Jsonify (JObj [("name", JStr "PikaChu");
                          ("types", JArr [JStr "electric"])]) 200) ∧
  calls (get_pokemon_type sample_base sample_allow sample_catalog
     (sample_request (JStr "ash@kanto.org") "name" "PikaChu") empty_world).2
    = ["https://pokeapi.co/api/v2/pokemon/pikachu"] ∧
  lowercased "PikaChu" "pikachu".
Proof.
  destruct (types_of_entity sample_base sample_allow sample_catalog
              (sample_request (JStr "ash@kanto.org") "name" "PikaChu") empty_world
              "PikaChu")
    as (Hlower & Hcalls & _ & Hok).
  - vm_compute. reflexivity.
  - vm_compute. reflexivity.
  - discriminate.
  - split; [|split; [exact Hcalls | exact Hlower]].
    apply (Hok (types_body ["electric"])
             [JObj [("slot", JNum 1); ("type", JObj [("name", JStr "electric")])]]).
    + vm_compute. reflexivity.
    + reflexivity.
    + constructor; [|constructor].
      exists (JObj [("name", JStr "electric")]). split; reflexivity.
Defined.




(** C8. On each of the three routes, a request let through by the gate that
    lacks the query parameter of the route is answered 400 with a message
    that names the parameter, and no upstream request is issued. *)
Theorem missing_parameter_rejected (base : string) (allow : list string)
    (upstream : string → upstream_reply) (randbelow : nat → nat)
    (req : request) (w : world) :
  authorize allow (session req) = Allow →
  (args req !! "name" = None →
     (get_pokemon_type base allow upstream req w).1
       = inr (Jsonify (error_body "Falta el parametro 'name'") 400) ∧
     calls (get_pokemon_type base allow upstream req w).2 = calls w) ∧
  (args req !! "type" = None →
     (get_random_pokemon_by_type base allow upstream randbelow req w).1
       = inr (Jsonify (error_body "Falta el parametro 'type'") 400) ∧
     calls (get_random_pokemon_by_type base allow upstream randbelow req w).2
       = calls w) ∧
  (args req !! "type" = None →
     (get_longest_name_pokemon base allow upstream req w).1
       = inr (Jsonify (error_body "Falta el parametro 'type'") 400) ∧
     calls (get_longest_name_pokemon base allow upstream req w).2 = calls w).
Proof.
  intros Hallow.
  unfold get_pokemon_type, get_random_pokemon_by_type, get_longest_name_pokemon.
  rewrite !gate_allow_runs by exact Hallow.
  split; [|split]; intros Hmissing.
  - apply type_view_missing. by left.
  - apply random_view_missing. by left.
  - apply longest_view_missing. by left.
Qed.

Lemma missing_parameter_rejected_witness :
  (get_pokemon_type sample_base sample_allow sample_catalog
     (Request (session_of (JStr "ash@kanto.org")) ∅) empty_world).1
    = inr (Jsonify (error_body "Falta el parametro 'name'") 400) ∧
  calls (get_pokemon_type sample_base sample_allow sample_catalog
     (Request (session_of (JStr "ash@kanto.org")) ∅) empty_world).2 = [].
Proof.
  destruct (missing_parameter_rejected sample_base sample_allow sample_catalog
              (λ _, 0%nat) (Request (session_of (JStr "ash@kanto.org")) ∅)
              empty_world)
    as (Hname & _ & _).
  - vm_compute. reflexivity.
  - apply Hname. reflexivity.
Defined.

(** C10. On each of the three routes, a query parameter that is present
    but empty is answered like a missing one: 400 with the message naming
    the parameter, and no upstream request. *)
Theorem empty_parameter_rejected (base : string) (allow : list string)
    (upstream : string → upstream_reply) (randbelow : nat → nat)
    (req : request) (w : world) :
  authorize allow (session req) = Allow →
  (args req !! "name" = Some "" →
     (get_pokemon_type base allow upstream req w).1
       = inr (Jsonify (error_body "Falta el parametro 'name'") 400) ∧
     calls (get_pokemon_type base allow upstream req w).2 = calls w) ∧
  (args req !! "type" = Some "" →
     (get_random_pokemon_by_type base allow upstream randbelow req w).1
       = inr (Jsonify (error_body "Falta el parametro 'type'") 400) ∧
     calls (get_random_pokemon_by_type base allow upstream randbelow req w).2
       = calls w) ∧
  (args req !! "type" = Some "" →
     (get_longest_name_pokemon base allow upstream req w).1
       = inr (Jsonify (error_body "Falta el parametro 'type'") 400) ∧
     calls (get_longest_name_pokemon base allow upstream req w).2 = calls w).
Proof.
  intros Hallow.
  unfold get_pokemon_type, get_random_pokemon_by_type, get_longest_name_pokemon.
  rewrite !gate_allow_runs by exact Hallow.
  split; [|split]; intros Hempty.
  - apply type_view_missing. by right.
  - apply random_view_missing. by right.
  - apply longest_view_missing. by right.
Qed.

Lemma empty_parameter_rejected_witness :
  (get_longest_name_pokemon sample_base sample_allow sample_catalog
     (sample_request (JStr "ash@kanto.org") "type" "") empty_world).1
    = inr (Jsonify (error_body "Falta el parametro 'type'") 400) ∧
  calls (get_longest_name_pokemon sample_base sample_allow sample_catalog
     (sample_request (JStr "ash@kanto.org") "type" "") empty_world).2 = [].
Proof.
  destruct (empty_parameter_rejected sample_base sample_allow sample_catalog
              (λ _, 0%nat) (sample_request (JStr "ash@kanto.org") "type" "")
              empty_world)
    as (_ & _ & Hlongest).
  - vm_compute. reflexivity.
  - apply Hlongest. vm_compute. reflexivity.
Defined.

(** Whatever the [try] block of a view raises, the [except] clause answers
    with the fixed 500 body and leaves the upstream alone. *)
Lemma except_is_internal_error (body : M http_response)
    (handler : exn → M http_response) (w1 w2 : world) (e : exn) :
  (∀ e' w', (handler e' w').1 = inr internal_error ∧
            calls (handler e' w').2 = calls w') →
  body w1 = (inl e, w2) →
  (try_except body handler w1).1 = inr internal_error ∧
  calls (try_except body handler w1).2 = calls w2.
Proof.
  intros Hhandler Hbody. unfold try_except. rewrite Hbody. apply Hhandler.
Qed.

(** C9 as stated fails: a 200 reply whose body has not the shape of section
    4.4 is not always answered 500. The empty object is no entity body, and
    the type route answers 200 with no type; an object whose [pokemon] is
    the empty text is no member list, and the longest-name route answers
    404. *)
Lemma malformed_body_not_always_internal_error :
  ¬ entity_shape (JObj []) ∧
  (get_pokemon_type sample_base sample_allow (λ _, Reply 200 (Some (JObj [])))
     (sample_request (JStr "ash@kanto.org") "name" "pikachu") empty_world).1
    = inr (Jsonify (JObj [("name", JStr "pikachu"); ("types", JArr [])]) 200) ∧
  ¬ members_shape (JObj [("pokemon", JStr "")]) ∧
  (get_longest_name_pokemon sample_base sample_allow
     (λ _, Reply 200 (Some (JObj [("pokemon", JStr "")])))
     (sample_request (JStr "ash@kanto.org") "type" "water") empty_world).1
    = inr (Jsonify (error_body "No se encontraron Pokemon para este tipo") 404).
Proof.
  split; [|split; [|split]].
  - intros (fields & entries & [= <-] & Hkey & _). discriminate Hkey.
  - vm_compute. reflexivity.
  - intros (fields & entries & [= <-] & Hkey & _). discriminate Hkey.
  - vm_compute. reflexivity.
Qed.

(** C9, amended. On each of the three routes, when the upstream request
    fails, the body of a 200 reply cannot be decoded, or the list of the view
    cannot be read in the decoded body (the body is not an object; or what it
    holds under [types], respectively [pokemon], is a scalar, a text or an
    object that is not empty, or a list with an entry that lacks the expected
    keys), the answer is the fixed 500 body, after exactly one upstream
    request; that answer differs from each of the 404 answers. *)
Theorem upstream_fault_is_internal_error (base : string) (allow : list string)
    (upstream : string → upstream_reply) (randbelow : nat → nat)
    (req : request) (w : world) :
  authorize allow (session req) = Allow →
  (∀ name, args req !! "name" = Some name → name ≠ "" →
     transport_fault "types" type_entry (upstream (pokemon_url base name)) →
     (get_pokemon_type base allow upstream req w).1
       = inr (Jsonify (error_body "Error interno del servidor") 500) ∧
     calls (get_pokemon_type base allow upstream req w).2
       = (calls w ++ [pokemon_url base name])%list) ∧
  (∀ ty, args req !! "type" = Some ty → ty ≠ "" →
     transport_fault "pokemon" member_entry (upstream (type_url base ty)) →
     (get_random_pokemon_by_type base allow upstream randbelow req w).1
       = inr (Jsonify (error_body "Error interno del servidor") 500) ∧
     calls (get_random_pokemon_by_type base allow upstream randbelow req w).2
       = (calls w ++ [type_url base ty])%list) ∧
  (∀ ty, args req !! "type" = Some ty → ty ≠ "" →
     transport_fault "pokemon" member_entry (upstream (type_url base ty)) →
     (get_longest_name_pokemon base allow upstream req w).1
       = inr (Jsonify (error_body "Error interno del servidor") 500) ∧
     calls (get_longest_name_pokemon base allow upstream req w).2
       = (calls w ++ [type_url base ty])%list) ∧
  Jsonify (error_body "Error interno del servidor") 500
    ∉ [pokemon_not_found; type_not_found; type_without_members].
Proof.
  intros Hallow.
  unfold get_pokemon_type, get_random_pokemon_by_type, get_longest_name_pokemon.
  rewrite !gate_allow_runs by exact Hallow.
  split; [|split; [|split]].
  - intros name Harg Hname Hfault.
    rewrite (type_view_present base upstream req w name Harg Hname).
    destruct (type_try_fault base upstream name
                (World (calls w)
                   (logged w ++ [(INFO, [Text "Solicitud de tipos para Pokemon: ";
                                         Field (JStr name)])])) Hfault)
      as [e Hraise].
    exact (except_is_internal_error _ get_pokemon_type_except _ _ e
             (λ e' w', conj eq_refl eq_refl) Hraise).
  - intros ty Harg Hty Hfault.
    rewrite (random_view_present base upstream randbelow req w ty Harg Hty).
    destruct (random_try_fault base upstream randbelow ty
                (World (calls w)
                   (logged w ++ [(INFO, [Text "Solicitud de Pokemon aleatorio para el tipo: ";
                                         Field (JStr ty)])])) Hfault)
      as [e Hraise].
    exact (except_is_internal_error _ get_random_pokemon_by_type_except _ _ e
             (λ e' w', conj eq_refl eq_refl) Hraise).
  - intros ty Harg Hty Hfault.
    rewrite (longest_view_present base upstream req w ty Harg Hty).
    destruct (longest_try_fault base upstream ty
                (World (calls w)
                   (logged w ++
                      [(INFO, [Text "Solicitud de Pokemon con nombre mas largo para el tipo: ";
                               Field (JStr ty)])])) Hfault)
      as [e Hraise].
    exact (except_is_internal_error _ get_longest_name_pokemon_except _ _ e
             (λ e' w', conj eq_refl eq_refl) Hraise).
  - rewrite !not_elem_of_cons. repeat split; try discriminate.
    apply not_elem_of_nil.
Qed.

Lemma upstream_fault_is_internal_error_witness :
  (get_random_pokemon_by_type sample_base sample_allow sample_catalog (λ _, 0%nat)
     (sample_request (JStr "ash@kanto.org") "type" "down") empty_world).1
    = inr (Jsonify (error_body "Error interno del servidor") 500) ∧
  (get_longest_name_pokemon sample_base sample_allow sample_catalog
     (sample_request (JStr "ash@kanto.org") "type" "garbled") empty_world).1
    = inr (Jsonify (error_body "Error interno del servidor") 500) ∧
  (get_pokemon_type sample_base sample_allow
     (λ _, Reply 200 (Some (JObj [("types", JStr "electric")])))
     (sample_request (JStr "ash@kanto.org") "name" "pikachu") empty_world).1
    = inr (Jsonify (error_body "Error interno del servidor") 500).
Proof.
  split; [|split].
  - destruct (upstream_fault_is_internal_error sample_base sample_allow
                sample_catalog (λ _, 0%nat)
                (sample_request (JStr "ash@kanto.org") "type" "down") empty_world)
      as (_ & Hrandom & _ & _).
    + vm_compute. reflexivity.
    + apply (Hrandom "down").
      * vm_compute. reflexivity.
      * discriminate.
      * exact (fault_network "pokemon" member_entry).
  - destruct (upstream_fault_is_internal_error sample_base sample_allow
                sample_catalog (λ _, 0%nat)
                (sample_request (JStr "ash@kanto.org") "type" "garbled") empty_world)
      as (_ & _ & Hlongest & _).
    + vm_compute. reflexivity.
    + apply (Hlongest "garbled").
      * vm_compute. reflexivity.
      * discriminate.
      * exact (fault_undecodable "pokemon" member_entry).
  - destruct (upstream_fault_is_internal_error sample_base sample_allow
                (λ _, Reply 200 (Some (JObj [("types", JStr "electric")])))
                (λ _, 0%nat)
                (sample_request (JStr "ash@kanto.org") "name" "pikachu") empty_world)
      as (Htype & _).
    + vm_compute. reflexivity.
    + apply (Htype "pikachu").
      * vm_compute. reflexivity.
      * discriminate.
      * apply fault_shape.
        apply (unreadable_text "types" type_entry _ "electric");
          [reflexivity | discriminate].
Defined.

(** * Further properties *)

(** ** The allow-list of line 23 *)

Section Split.

Variable sep : ascii.

Lemma join_cons_char c piece pieces :
  join sep (String c piece :: pieces) = String c (join sep (piece :: pieces)).
Proof. by destruct pieces. Qed.

(** Joining the pieces of a string with the separator gives the string back:
    no piece is dropped, trimmed or merged. *)
Lemma join_split s : join sep (split sep s) = s.
Proof.
  induction s as [|c rest IH]; [done|].
  cbn [split]. destruct (Ascii.eqb_spec c sep) as [->|Hne].
  - pose proof (split_not_empty sep rest) as Hrest.
    destruct (split sep rest) as [|piece pieces]; [done|].
    cbn [join]. by rewrite <- IH.
  - pose proof (split_not_empty sep rest) as Hrest.
    destruct (split sep rest) as [|piece pieces]; [done|].
    rewrite join_cons_char. by rewrite IH.
Qed.

Lemma split_without_sep a : occurs sep a = false → split sep a = [a].
Proof.
  induction a as [|c rest IH]; [done|]. simpl.
  intros [Hc Hrest]%orb_false_elim. rewrite Hc. by rewrite (IH Hrest).
Qed.

Lemma split_app_sep a b :
  occurs sep a = false →
  split sep (a ++ String sep b) = a :: split sep b.
Proof.
  induction a as [|c rest IH]; simpl.
  - intros _. by rewrite Ascii.eqb_refl.
  - intros [Hc Hrest]%orb_false_elim. rewrite Hc. by rewrite (IH Hrest).
Qed.

Lemma split_join l :
  l ≠ [] → Forall (λ piece, occurs sep piece = false) l →
  split sep (join sep l) = l.
Proof.
  induction l as [|a rest IH]; [done|]. intros _ Hfree.
  apply Forall_cons in Hfree as [Ha Hrest].
  destruct rest as [|b rest].
  - by apply split_without_sep.
  - change (join sep (a :: b :: rest)) with (a ++ String sep (join sep (b :: rest))).
    rewrite (split_app_sep _ _ Ha). f_equal. by apply IH.
Qed.

Lemma split_pieces_without_sep s :
  Forall (λ piece, occurs sep piece = false) (split sep s).
Proof.
  induction s as [|c rest IH]; cbn [split].
  - by repeat constructor.
  - destruct (Ascii.eqb c sep) eqn:Hc.
    + by constructor.
    + destruct (split sep rest) as [|piece pieces]; simpl.
      * repeat constructor. simpl. by rewrite Hc.
      * apply Forall_cons in IH as [Hpiece Hpieces].
        constructor; [|done]. simpl. by rewrite Hc.
Qed.

End Split.

(** X1. The entries of the allow-list are the pieces of the environment
    variable between its commas: the list is not empty, no entry holds a
    comma, and the entries joined with commas give back the value of the
    variable, so that nothing is trimmed, dropped or merged; and no other
    list has these three properties. *)
Theorem allow_list_keeps_the_text (value : option string) :
  EMAILS_PERMITIDOS_env value ≠ [] ∧
  Forall (λ e, occurs "," e = false) (EMAILS_PERMITIDOS_env value) ∧
  join "," (EMAILS_PERMITIDOS_env value) = getenv value "" ∧
  ∀ entries, entries ≠ [] → Forall (λ e, occurs "," e = false) entries →
             join "," entries = getenv value "" →
             entries = EMAILS_PERMITIDOS_env value.
Proof.
  unfold EMAILS_PERMITIDOS_env. split; [apply split_not_empty|].
  split; [apply split_pieces_without_sep|]. split; [apply join_split|].
  intros entries Hne Hfree <-. symmetry. by apply split_join.
Qed.

Lemma allow_list_keeps_the_text_witness :
  EMAILS_PERMITIDOS_env (Some "ash@kanto.org, misty@kanto.org,")
  = ["ash@kanto.org"; " misty@kanto.org"; ""].
Proof.
  destruct (allow_list_keeps_the_text (Some "ash@kanto.org, misty@kanto.org,"))
    as (_ & _ & _ & Honly).
  symmetry. apply Honly.
  - discriminate.
  - repeat constructor.
  - reflexivity.
Defined.

(** X2. When the variable lists addresses that hold no comma, separated by
    commas, the gate lets through exactly the sessions whose email claim is
    one of these addresses. *)
Theorem allow_list_admits_listed (addresses : list string)
    (s : gmap string (gmap string json)) :
  addresses ≠ [] →
  Forall (λ a, occurs "," a = false) addresses →
  authorize (EMAILS_PERMITIDOS_env (Some (join "," addresses))) s = Allow
  ↔ ∃ a, a ∈ addresses ∧ email_claim s = Some (JStr a).
Proof.
  intros Hne Hfree. unfold EMAILS_PERMITIDOS_env, authorize. simpl.
  rewrite (split_join _ _ Hne Hfree).
  destruct (email_claim s) as [email|]; [|split; [done | by intros (a & _ & ?)]].
  destruct (decide (on_allow_list addresses email)) as [Hin|Hout]; split; try done.
  - intros _. destruct email; try done. by exists s0.
  - intros (a & Ha & [= ->]). by destruct Hout.
Qed.

Lemma allow_list_admits_listed_witness :
  authorize (EMAILS_PERMITIDOS_env (Some "ash@kanto.org,misty@kanto.org"))
    (session_of (JStr "misty@kanto.org")) = Allow.
Proof.
  apply (allow_list_admits_listed ["ash@kanto.org"; "misty@kanto.org"]).
  - discriminate.
  - repeat constructor.
  - exists "misty@kanto.org". split; [|reflexivity].
    apply list_elem_of_further, list_elem_of_here.
Defined.

(** X3. An email claim that holds a comma is never let through, whatever
    the value of the environment variable. *)
Theorem comma_email_never_allowed (value : option string)
    (s : gmap string (gmap string json)) (e : string) :
  email_claim s = Some (JStr e) →
  occurs "," e = true →
  authorize (EMAILS_PERMITIDOS_env value) s ≠ Allow.
Proof.
  intros Hclaim Hcomma. unfold authorize. rewrite Hclaim.
  destruct (decide _) as [Hin|]; [|done]. simpl in Hin.
  pose proof (split_pieces_without_sep "," (getenv value "")) as Hfree.
  rewrite Forall_forall in Hfree. specialize (Hfree e Hin). congruence.
Qed.

Lemma comma_email_never_allowed_witness :
  authorize (EMAILS_PERMITIDOS_env (Some "ash@kanto.org,misty@kanto.org"))
    (session_of (JStr "ash@kanto.org,misty@kanto.org")) ≠ Allow.
Proof.
  apply (comma_email_never_allowed _ _ "ash@kanto.org,misty@kanto.org");
    reflexivity.
Defined.

(** X4. No value of the environment variable closes the gate to everyone:
    the allow-list always has an entry, and a session whose email claim is
    that entry is let through. *)
Theorem allow_list_never_closed (value : option string) :
  ∃ e, e ∈ EMAILS_PERMITIDOS_env value ∧
       ∀ s, email_claim s = Some (JStr e) →
            authorize (EMAILS_PERMITIDOS_env value) s = Allow.
Proof.
  pose proof (split_not_empty "," (getenv value "")) as Hne.
  unfold EMAILS_PERMITIDOS_env.
  destruct (split "," (getenv value "")) as [|e rest] eqn:Hsplit; [done|].
  exists e. split; [apply list_elem_of_here|].
  intros s Hclaim. unfold authorize. rewrite Hclaim.
  destruct (decide _) as [|Hout]; [done|].
  destruct Hout. simpl. apply list_elem_of_here.
Qed.

Lemma allow_list_never_closed_witness :
  authorize (EMAILS_PERMITIDOS_env None) (session_of (JStr "")) = Allow.
Proof.
  destruct (allow_list_never_closed None) as (e & He & Hpass).
  apply list_elem_of_singleton in He. subst e.
  apply Hpass. reflexivity.
Defined.

(** ** What a protected route answers, asks and logs *)

Section Settled.

Variable base : string.
Variable upstream : string → upstream_reply.
Variable randbelow : nat → nat.

Lemma type_view_settled req w :
  ∃ r, (get_pokemon_type_view base upstream req w).1 = inr r ∧
       settled w r (get_pokemon_type_view base upstream req w).2.
Proof.
  unfold get_pokemon_type_view, get_pokemon_type_try, get_pokemon_type_except.
  destruct (args req !! "name") as [[|c name]|]; run; [settle| |settle].
  destruct (upstream _) as [|st [data|]]; simpl; [settle| |].
  - destruct (Z.eqb_spec st 200) as [->|Hst]; simpl; [|settle].
    destruct (extract_types data) as [e|types]; simpl; settle.
  - destruct (Z.eqb_spec st 200) as [->|Hst]; simpl; settle.
Qed.

Lemma random_view_settled req w :
  ∃ r, (get_random_pokemon_by_type_view base upstream randbelow req w).1 = inr r ∧
       settled w r (get_random_pokemon_by_type_view base upstream randbelow req w).2.
Proof.
  unfold get_random_pokemon_by_type_view, get_random_pokemon_by_type_try,
    get_random_pokemon_by_type_except.
  destruct (args req !! "type") as [[|c ty]|]; run; [settle| |settle].
  destruct (upstream _) as [|st [data|]]; simpl; [settle| |].
  - destruct (Z.eqb_spec st 200) as [->|Hst]; simpl; [|settle].
    destruct (extract_pokemons data) as [e|[|m members]]; simpl; [settle..|].
    destruct (random_choice _ _) as [e|chosen]; simpl; [settle|].
    destruct (py_getitem chosen "name") as [e|shown_name]; simpl; settle.
  - destruct (Z.eqb_spec st 200) as [->|Hst]; simpl; settle.
Qed.

Lemma longest_view_settled req w :
  ∃ r, (get_longest_name_pokemon_view base upstream req w).1 = inr r ∧
       settled w r (get_longest_name_pokemon_view base upstream req w).2.
Proof.
  unfold get_longest_name_pokemon_view, get_longest_name_pokemon_try,
    get_longest_name_pokemon_except.
  destruct (args req !! "type") as [[|c ty]|]; run; [settle| |settle].
  destruct (upstream _) as [|st [data|]]; simpl; [settle| |].
  - destruct (Z.eqb_spec st 200) as [->|Hst]; simpl; [|settle].
    destruct (extract_pokemons data) as [e|[|m members]]; simpl; [settle..|].
    destruct (rbind (name_length m) _) as [e|chosen]; simpl; [settle|].
    destruct (py_getitem chosen "name") as [e|shown_name]; simpl; settle.
  - destruct (Z.eqb_spec st 200) as [->|Hst]; simpl; settle.
Qed.

Lemma gate_settled allow (f : view) req w :
  (∀ w0, ∃ r, (f req w0).1 = inr r ∧ settled w0 r (f req w0).2) →
  ∃ r, (requiere_autorizacion allow f req w).1 = inr r ∧
       settled w r (requiere_autorizacion allow f req w).2.
Proof.
  intros Hview.
  destruct (email_claim (session req)) as [email|] eqn:Hclaim.
  - destruct (decide (on_allow_list allow email)) as [Hin|Hout].
    + rewrite (gate_allowed allow f req w email Hclaim Hin). apply Hview.
    + rewrite (gate_forbidden allow f req w email Hclaim Hout). settle.
  - rewrite (gate_unauthenticated allow f req w Hclaim). settle.
Qed.

Lemma protected_route_settled allow endpoint req w :
  endpoint ∈ protected base allow upstream randbelow →
  ∃ r, (endpoint req w).1 = inr r ∧ settled w r (endpoint req w).2.
Proof.
  unfold protected. rewrite !elem_of_cons, elem_of_nil.
  intros [->|[->|[->|[]]]]; apply gate_settled; intros w0.
  - apply type_view_settled.
  - apply random_view_settled.
  - apply longest_view_settled.
Qed.

End Settled.

(** *** The decorator on an arbitrary session *)


Lemma item_email_found (items : list json) :
  existsb (λ x, match x with JStr s => String.eqb s "email" | _ => false end) items
    = true
  ↔ JStr "email" ∈ items.
Proof.
  rewrite existsb_exists. split.
  - intros (x & Hx & Heq). apply list_elem_of_In in Hx.
    destruct x; try discriminate. by apply String.eqb_eq in Heq as ->.
  - intros Hin. exists (JStr "email"). split; [by apply list_elem_of_In|done].
Qed.

(** What the decorator does with a wrapped call that always answers. *)
Lemma raw_gate_outcome (allow : list string) (f : M http_response)
    (session : gmap string json) (w : world) :
  (∀ w0, ∃ r, (f w0).1 = inr r ∧ settled w0 r (f w0).2) →
  (requiere_autorizacion_raw allow f session w = (inl TypeError, w) ∧
   ∃ user, session !! "user" = Some user ∧ gate_raises user) ∨
  (∃ r, (requiere_autorizacion_raw allow f session w).1 = inr r ∧
        settled w r (requiere_autorizacion_raw allow f session w).2 ∧
        ∀ user, session !! "user" = Some user → ¬ gate_raises user).
Proof.
  intros Hf. unfold requiere_autorizacion_raw.
  destruct (session !! "user") as [user|]; [|right].
  2: { run. eexists. split; [reflexivity|]. split; [|done].
       split; [settle_taxonomy|]. split; [reflexivity|].
       split; [unfold last_level; simpl; by rewrite last_snoc
              | simpl; apply prefix_app_r; reflexivity]. }
  destruct user as [|b|n|s|items|fields].
  - left. split; [reflexivity|]. by exists JNull.
  - left. split; [reflexivity|]. by exists (JBool b).
  - left. split; [reflexivity|]. by exists (JNum n).
  - run. destruct (index 0 "email" s) as [m|] eqn:Hindex; simpl.
    + left. split; [reflexivity|]. exists (JStr s). split; [done|].
      exists m. apply (index_correct1 0 m "email" s Hindex).
    + right. eexists. split; [reflexivity|]. split.
      * split; [settle_taxonomy|]. split; [reflexivity|].
        split; [unfold last_level; simpl; by rewrite last_snoc
               | simpl; apply prefix_app_r; reflexivity].
      * intros user [= <-] [m Hm].
        apply (index_correct3 0 m "email" s Hindex); [discriminate|lia|exact Hm].
  - run. destruct (existsb _ items) eqn:Hfound; simpl.
    + left. split; [reflexivity|]. exists (JArr items). split; [done|].
      by apply item_email_found.
    + right. eexists. split; [reflexivity|]. split.
      * split; [settle_taxonomy|]. split; [reflexivity|].
        split; [unfold last_level; simpl; by rewrite last_snoc
               | simpl; apply prefix_app_r; reflexivity].
      * intros user [= <-] Hin%item_email_found. congruence.
  - right. run. destruct (assoc "email" fields) as [email|]; simpl.
    + destruct (py_in email allow); simpl.
      * destruct (Hf w) as (r & Hr & Hsettled). exists r.
        split; [exact Hr|]. split; [exact Hsettled|]. intros user [= <-] [].
      * eexists. split; [reflexivity|]. split; [|intros user [= <-] []].
        split; [settle_taxonomy|]. split; [reflexivity|].
        split; [unfold last_level; simpl; by rewrite last_snoc
               | simpl; apply prefix_app_r; reflexivity].
    + eexists. split; [reflexivity|]. split; [|intros user [= <-] []].
      split; [settle_taxonomy|]. split; [reflexivity|].
      split; [unfold last_level; simpl; by rewrite last_snoc
             | simpl; apply prefix_app_r; reflexivity].
Qed.

Lemma protected_raw_outcome (base : string) (allow : list string)
    (upstream : string → upstream_reply) (randbelow : nat → nat)
    (session : gmap string json) (query : gmap string string)
    (route : M http_response) (w : world) :
  route ∈ protected_raw base allow upstream randbelow session query →
  (route w = (inl TypeError, w) ∧
   ∃ user, session !! "user" = Some user ∧ gate_raises user) ∨
  (∃ r, (route w).1 = inr r ∧ settled w r (route w).2 ∧
        ∀ user, session !! "user" = Some user → ¬ gate_raises user).
Proof.
  unfold protected_raw. rewrite !elem_of_cons, elem_of_nil.
  intros [->|[->|[->|[]]]]; apply raw_gate_outcome; intros w0.
  - apply type_view_settled.
  - apply random_view_settled.
  - apply longest_view_settled.
Qed.

(** X5. On a session whose entries are arbitrary decoded values, a
    protected route lets a [TypeError] escape exactly when the entry under
    [user] is null, a boolean, a number, a text that holds [email] or a list
    that holds the item ["email"]; on every other session no exception
    escapes and the answer is a redirect to the login route, a 403, a 200
    with a payload, or one of the six fixed error bodies of the views. *)
Theorem protected_answer_in_taxonomy (base : string) (allow : list string)
    (upstream : string → upstream_reply) (randbelow : nat → nat)
    (session : gmap string json) (query : gmap string string)
    (route : M http_response) (w : world) :
  route ∈ protected_raw base allow upstream randbelow session query →
  ((route w).1 = inl TypeError ∧
   ∃ user, session !! "user" = Some user ∧ gate_raises user) ∨
  (∃ r, (route w).1 = inr r ∧ in_taxonomy r ∧
        ∀ user, session !! "user" = Some user → ¬ gate_raises user).
Proof.
  intros Hroute.
  destruct (protected_raw_outcome base allow upstream randbelow session query route w
              Hroute) as [[Hraise Huser]|(r & Hr & (Htax & _) & Hno)].
  - left. by rewrite Hraise.
  - right. by exists r.
Qed.

Lemma protected_answer_in_taxonomy_witness :
  (requiere_autorizacion_raw sample_allow
     (get_pokemon_type_view sample_base sample_catalog
        (Request (typed_session {[ "user" := JStr "no email here" ]})
           {[ "name" := "pikachu" ]}))
     {[ "user" := JStr "no email here" ]} empty_world).1 = inl TypeError ∧
  ∃ r, (requiere_autorizacion_raw sample_allow
          (get_pokemon_type_view sample_base sample_catalog
             (Request (typed_session {[ "user" := JStr "anonymous" ]})
                {[ "name" := "pikachu" ]}))
          {[ "user" := JStr "anonymous" ]} empty_world).1 = inr r ∧
       in_taxonomy r.
Proof.
  split.
  - destruct (protected_answer_in_taxonomy sample_base sample_allow sample_catalog
                (λ _, 0%nat) {[ "user" := JStr "no email here" ]}
                {[ "name" := "pikachu" ]}
                (requiere_autorizacion_raw sample_allow
                   (get_pokemon_type_view sample_base sample_catalog
                      (Request (typed_session {[ "user" := JStr "no email here" ]})
                         {[ "name" := "pikachu" ]}))
                   {[ "user" := JStr "no email here" ]}) empty_world)
      as [[Hraise _]|(r & _ & _ & Hno)].
    + apply list_elem_of_here.
    + exact Hraise.
    + destruct (Hno (JStr "no email here")); [vm_compute; reflexivity|].
      exists 3%nat. reflexivity.
  - destruct (protected_answer_in_taxonomy sample_base sample_allow sample_catalog
                (λ _, 0%nat) {[ "user" := JStr "anonymous" ]}
                {[ "name" := "pikachu" ]}
                (requiere_autorizacion_raw sample_allow
                   (get_pokemon_type_view sample_base sample_catalog
                      (Request (typed_session {[ "user" := JStr "anonymous" ]})
                         {[ "name" := "pikachu" ]}))
                   {[ "user" := JStr "anonymous" ]}) empty_world)
      as [[Hraise _]|(r & Hr & Htax & _)].
    + apply list_elem_of_here.
    + vm_compute in Hraise. discriminate Hraise.
    + by exists r.
Defined.

(** X6. On a session whose entries are arbitrary decoded values, a
    protected route asks the upstream exactly once when it answers 200, 404
    or 500, and not at all when it redirects, answers 403 or 400, or lets an
    exception escape; in no case more than once. *)
Theorem upstream_asked_by_answer (base : string) (allow : list string)
    (upstream : string → upstream_reply) (randbelow : nat → nat)
    (session : gmap string json) (query : gmap string string)
    (route : M http_response) (w : world) :
  route ∈ protected_raw base allow upstream randbelow session query →
  match (route w).1 with
  | inl _ => calls (route w).2 = calls w
  | inr r =>
      if consults r then ∃ url, calls (route w).2 = (calls w ++ [url])%list
      else calls (route w).2 = calls w
  end.
Proof.
  intros Hroute.
  destruct (protected_raw_outcome base allow upstream randbelow session query route w
              Hroute) as [[Hraise _]|(r & Hr & (_ & Hcalls & _) & _)].
  - by rewrite Hraise.
  - by rewrite Hr.
Qed.

Lemma upstream_asked_by_answer_witness :
  calls (requiere_autorizacion_raw sample_allow
           (get_longest_name_pokemon_view sample_base sample_catalog
              (Request (typed_session {[ "user" := JNull ]}) {[ "type" := "water" ]}))
           {[ "user" := JNull ]} empty_world).2 = [].
Proof.
  pose proof (upstream_asked_by_answer sample_base sample_allow sample_catalog
                (λ _, 0%nat) {[ "user" := JNull ]} {[ "type" := "water" ]}
                (requiere_autorizacion_raw sample_allow
                   (get_longest_name_pokemon_view sample_base sample_catalog
                      (Request (typed_session {[ "user" := JNull ]})
                         {[ "type" := "water" ]}))
                   {[ "user" := JNull ]}) empty_world) as Hcalls.
  apply Hcalls.
  apply list_elem_of_further, list_elem_of_further, list_elem_of_here.
Defined.



(** X7. Every answer of a protected route is logged: the last record of
    the log is a warning for a redirect or a 403, an error for a 400 or a
    404, an exception record for a 500 and an info record for a 200; the
    records already in the log are kept. *)
Theorem answer_is_logged (base : string) (allow : list string)
    (upstream : string → upstream_reply) (randbelow : nat → nat)
    (endpoint : view) (req : request) (w : world) :
  endpoint ∈ protected base allow upstream randbelow →
  ∃ r, (endpoint req w).1 = inr r ∧
       last_level (endpoint req w).2 = Some (expected_level r) ∧
       logged w `prefix_of` logged (endpoint req w).2.
Proof.
  intros Hroute.
  destruct (protected_route_settled base upstream randbelow allow endpoint req w Hroute)
    as (r & Hr & _ & _ & Hlevel & Hkept).
  by exists r.
Qed.

Lemma answer_is_logged_witness :
  ∃ r, (get_pokemon_type sample_base sample_allow sample_catalog
          (sample_request (JStr "gary@kanto.org") "name" "pikachu") empty_world).1 = inr r ∧
       last_level (get_pokemon_type sample_base sample_allow sample_catalog
          (sample_request (JStr "gary@kanto.org") "name" "pikachu") empty_world).2
         = Some (expected_level r) ∧
       logged empty_world `prefix_of`
         logged (get_pokemon_type sample_base sample_allow sample_catalog
          (sample_request (JStr "gary@kanto.org") "name" "pikachu") empty_world).2.
Proof.
  apply (answer_is_logged sample_base sample_allow sample_catalog (λ _, 0%nat)).
  apply list_elem_of_here.
Defined.

(** ** Edge cases of the upstream body *)

Lemma max_loop_raises {A} (key : A → result nat) (rest : list A) (x : A) (e : exn) :
  x ∈ rest → key x = inl e →
  ∀ best kbest, ∃ e', max_loop key best kbest rest = inl e'.
Proof.
  induction rest as [|y rest IH]; intros Hin Hx best kbest.
  - by apply elem_of_nil in Hin.
  - simpl. destruct (key y) as [e'|k] eqn:Hy; simpl; [by eexists|].
    apply elem_of_cons in Hin as [->|Hin]; [congruence|].
    destruct (kbest <? k)%nat; by apply IH.
Qed.

Lemma py_max_raises {A} (key : A → result nat) (l : list A) (x : A) (e : exn) :
  x ∈ l → key x = inl e → ∃ e', py_max l key = inl e'.
Proof.
  destruct l as [|y rest]; intros Hin Hx.
  - by apply elem_of_nil in Hin.
  - simpl. destruct (key y) as [e'|k] eqn:Hy; simpl; [by eexists|].
    apply elem_of_cons in Hin as [->|Hin]; [congruence|].
    by apply max_loop_raises with x e.
Qed.

(** X8. A 200 body that is an object without the key the view reads is
    read as an empty list: the type route answers 200 with no type, and the
    two category routes answer 404 for a category without members. *)
Theorem missing_key_reads_as_empty (base : string) (allow : list string)
    (upstream : string → upstream_reply) (randbelow : nat → nat)
    (req : request) (w : world) (fields : list (string * json)) :
  authorize allow (session req) = Allow →
  (∀ name, args req !! "name" = Some name → name ≠ "" →
     upstream (pokemon_url base name) = Reply 200 (Some (JObj fields)) →
     assoc "types" fields = None →
     (get_pokemon_type base allow upstream req w).1
       = inr (Jsonify (JObj [("name", JStr name); ("types", JArr [])]) 200)) ∧
  (∀ ty, args req !! "type" = Some ty → ty ≠ "" →
     upstream (type_url base ty) = Reply 200 (Some (JObj fields)) →
     assoc "pokemon" fields = None →
     (get_random_pokemon_by_type base allow upstream randbelow req w).1
       = inr type_without_members ∧
     (get_longest_name_pokemon base allow upstream req w).1
       = inr type_without_members).
Proof.
  intros Hallow.
  unfold get_pokemon_type, get_random_pokemon_by_type, get_longest_name_pokemon.
  rewrite !gate_allow_runs by exact Hallow. split.
  - intros name Harg Hname Hreply Hkey.
    rewrite (type_view_present base upstream req w name Harg Hname).
    unfold try_except.
    rewrite (type_try_success base upstream name _ (JObj fields) [] Hreply); [done|].
    unfold extract_types. simpl. by rewrite Hkey.
  - intros ty Harg Hty Hreply Hkey.
    assert (extract_pokemons (JObj fields) = inr []) as Hnone.
    { unfold extract_pokemons. simpl. by rewrite Hkey. }
    rewrite (random_view_present base upstream randbelow req w ty Harg Hty).
    rewrite (longest_view_present base upstream req w ty Harg Hty).
    unfold try_except.
    rewrite (random_try_no_members base upstream randbelow ty _ _ Hreply Hnone).
    by rewrite (longest_try_no_members base upstream ty _ _ Hreply Hnone).
Qed.

Lemma missing_key_reads_as_empty_witness :
  (get_pokemon_type sample_base sample_allow
     (λ _, Reply 200 (Some (JObj [("id", JNum 25)])))
     (sample_request (JStr "ash@kanto.org") "name" "Pikachu") empty_world).1
  = inr (Jsonify (JObj [("name", JStr "Pikachu"); ("types", JArr [])]) 200).
Proof.
  destruct (missing_key_reads_as_empty sample_base sample_allow
              (λ _, Reply 200 (Some (JObj [("id", JNum 25)]))) (λ _, 0%nat)
              (sample_request (JStr "ash@kanto.org") "name" "Pikachu") empty_world
              [("id", JNum 25)])
    as [Htype _].
  - vm_compute. reflexivity.
  - apply (Htype "Pikachu"); [vm_compute; reflexivity | discriminate | reflexivity..].
Defined.

(** X9. When one entry of the [types] list of a 200 body carries no
    label, the type route answers 500: the labels of the other entries are
    not returned. *)
Theorem unlabelled_type_is_internal_error (base : string) (allow : list string)
    (upstream : string → upstream_reply) (req : request) (w : world)
    (name : string) (data : json) (entries : list json) (entry : json) :
  authorize allow (session req) = Allow →
  args req !! "name" = Some name → name ≠ "" →
  upstream (pokemon_url base name) = Reply 200 (Some data) →
  py_get data "types" (JArr []) = inr (JArr entries) →
  entry ∈ entries →
  (∀ lbl, ¬ labelled entry lbl) →
  (get_pokemon_type base allow upstream req w).1 = inr internal_error.
Proof.
  intros Hallow Harg Hname Hreply Hentries Hentry Hnone.
  assert (∃ e, rbind (py_getitem entry "type") (λ ty, py_getitem ty "name") = inl e)
    as [e He].
  { destruct (py_getitem entry "type") as [e|ty] eqn:Hty; simpl; [by eexists|].
    destruct (py_getitem ty "name") as [e|lbl] eqn:Hlbl; [by eexists|].
    destruct (Hnone lbl). by exists ty. }
  destruct (rmap_raises
              (λ t, rbind (py_getitem t "type") (λ ty, py_getitem ty "name"))
              entries entry e Hentry He) as [e' Hraise].
  assert (transport_fault "types" type_entry (upstream (pokemon_url base name)))
    as Hfault.
  { rewrite Hreply. apply fault_shape, unreadable_types. exists e'.
    unfold extract_types. rewrite Hentries. simpl. exact Hraise. }
  unfold get_pokemon_type. rewrite gate_allow_runs by exact Hallow.
  rewrite (type_view_present base upstream req w name Harg Hname).
  destruct (type_try_fault base upstream name
              (World (calls w)
                 (logged w ++ [(INFO, [Text "Solicitud de tipos para Pokemon: ";
                                       Field (JStr name)])])) Hfault)
    as [e'' Htry].
  exact (proj1 (except_is_internal_error _ (get_pokemon_type_except) _ _ e''
                  (λ e0 w0, conj eq_refl eq_refl) Htry)).
Qed.

Lemma unlabelled_type_is_internal_error_witness :
  (get_pokemon_type sample_base sample_allow
     (λ _, Reply 200 (Some (JObj [("types",
             JArr [JObj [("type", JObj [("name", JStr "electric")])];
                   JObj [("slot", JNum 2)]])])))
     (sample_request (JStr "ash@kanto.org") "name" "pikachu") empty_world).1
  = inr internal_error.
Proof.
  apply (unlabelled_type_is_internal_error sample_base sample_allow _ _ _ "pikachu"
           (JObj [("types",
             JArr [JObj [("type", JObj [("name", JStr "electric")])];
                   JObj [("slot", JNum 2)]])])
           [JObj [("type", JObj [("name", JStr "electric")])]; JObj [("slot", JNum 2)]]
           (JObj [("slot", JNum 2)])).
  - vm_compute. reflexivity.
  - vm_compute. reflexivity.
  - discriminate.
  - reflexivity.
  - reflexivity.
  - apply list_elem_of_further, list_elem_of_here.
  - intros lbl (ty & Hty & _). discriminate Hty.
Defined.

(** X10. When one member of the list has no name, or a name that has no
    length, the longest-name route answers 500, wherever the member stands
    in the list. *)
Theorem unnamed_member_breaks_longest (base : string) (allow : list string)
    (upstream : string → upstream_reply) (req : request) (w : world)
    (ty : string) (data : json) (members : list json) (m : json) (e : exn) :
  authorize allow (session req) = Allow →
  args req !! "type" = Some ty → ty ≠ "" →
  upstream (type_url base ty) = Reply 200 (Some data) →
  extract_pokemons data = inr members →
  m ∈ members →
  name_length m = inl e →
  (get_longest_name_pokemon base allow upstream req w).1 = inr internal_error.
Proof.
  intros Hallow Harg Hty Hreply Hmembers Hm Hkey.
  destruct (py_max_raises name_length members m e Hm Hkey) as [e' Hmax].
  unfold get_longest_name_pokemon. rewrite gate_allow_runs by exact Hallow.
  rewrite (longest_view_present base upstream req w ty Harg Hty).
  unfold try_except, get_longest_name_pokemon_try. run.
  fold (type_url base ty). rewrite Hreply. simpl. rewrite Hmembers.
  destruct members as [|m0 rest]; [by apply elem_of_nil in Hm|].
  cbv beta iota. by rewrite Hmax.
Qed.

Lemma unnamed_member_breaks_longest_witness :
  (get_longest_name_pokemon sample_base sample_allow
     (λ _, Reply 200 (Some (members_body [entity "onix"; JObj [("name", JNum 95)]])))
     (sample_request (JStr "ash@kanto.org") "type" "rock") empty_world).1
  = inr internal_error.
Proof.
  apply (unnamed_member_breaks_longest sample_base sample_allow _ _ _ "rock"
           (members_body [entity "onix"; JObj [("name", JNum 95)]])
           [entity "onix"; JObj [("name", JNum 95)]]
           (JObj [("name", JNum 95)]) TypeError).
  - vm_compute. reflexivity.
  - vm_compute. reflexivity.
  - discriminate.
  - reflexivity.
  - reflexivity.
  - apply list_elem_of_further, list_elem_of_here.
  - reflexivity.
Defined.

(** X11. The answer of the random route depends on the drawn member only:
    when the drawn member has a name the answer is that member with status
    200, whatever the other members are; when it has none the answer is
    500. *)
Theorem random_answer_by_drawn_member (base : string) (allow : list string)
    (upstream : string → upstream_reply) (randbelow : nat → nat)
    (req : request) (w : world) (ty : string) (data : json)
    (members : list json) (chosen : json) :
  authorize allow (session req) = Allow →
  args req !! "type" = Some ty → ty ≠ "" →
  upstream (type_url base ty) = Reply 200 (Some data) →
  extract_pokemons data = inr members →
  members !! randbelow (length members) = Some chosen →
  (get_random_pokemon_by_type base allow upstream randbelow req w).1
  = match py_getitem chosen "name" with
    | inr _ => inr (Jsonify chosen 200)
    | inl _ => inr internal_error
    end.
Proof.
  intros Hallow Harg Hty Hreply Hmembers Hdraw.
  unfold get_random_pokemon_by_type. rewrite gate_allow_runs by exact Hallow.
  rewrite (random_view_present base upstream randbelow req w ty Harg Hty).
  destruct (py_getitem chosen "name") as [e|v] eqn:Hname.
  - unfold try_except, get_random_pokemon_by_type_try. run.
    fold (type_url base ty). rewrite Hreply. simpl. rewrite Hmembers.
    destruct members as [|m0 rest]; [done|].
    cbv beta iota. unfold random_choice. rewrite Hdraw. simpl. by rewrite Hname.
  - unfold try_except.
    by rewrite (random_try_success base upstream randbelow ty _ data members chosen v).
Qed.

Lemma random_answer_by_drawn_member_witness :
  (get_random_pokemon_by_type sample_base sample_allow
     (λ _, Reply 200 (Some (members_body [entity "onix"; JObj [("id", JNum 95)]])))
     (λ _, 0%nat)
     (sample_request (JStr "ash@kanto.org") "type" "rock") empty_world).1
    = inr (Jsonify (entity "onix") 200) ∧
  (get_random_pokemon_by_type sample_base sample_allow
     (λ _, Reply 200 (Some (members_body [entity "onix"; JObj [("id", JNum 95)]])))
     (λ _, 1%nat)
     (sample_request (JStr "ash@kanto.org") "type" "rock") empty_world).1
    = inr internal_error.
Proof.
  split.
  - apply (random_answer_by_drawn_member sample_base sample_allow _ (λ _, 0%nat) _ _
             "rock" (members_body [entity "onix"; JObj [("id", JNum 95)]])
             [entity "onix"; JObj [("id", JNum 95)]] (entity "onix")).
    + vm_compute. reflexivity.
    + vm_compute. reflexivity.
    + discriminate.
    + reflexivity.
    + reflexivity.
    + reflexivity.
  - apply (random_answer_by_drawn_member sample_base sample_allow _ (λ _, 1%nat) _ _
             "rock" (members_body [entity "onix"; JObj [("id", JNum 95)]])
             [entity "onix"; JObj [("id", JNum 95)]] (JObj [("id", JNum 95)])).
    + vm_compute. reflexivity.
    + vm_compute. reflexivity.
    + discriminate.
    + reflexivity.
    + reflexivity.
    + reflexivity.
Defined.

(** ** Case of the category parameter *)

Section Case.

Variable base : string.
Variable upstream : string → upstream_reply.
Variable randbelow : nat → nat.



End Case.



(** X13. An email claim that is not a string (null, a number, a list, an
    object) is answered 403 under every allow-list, without running the
    view. *)
Theorem non_string_email_forbidden (allow : list string) (f : view)
    (req : request) (w : world) (email : json) :
  email_claim (session req) = Some email →
  (∀ s, email ≠ JStr s) →
  (requiere_autorizacion allow f req w).1 = inr (Abort 403) ∧
  calls (requiere_autorizacion allow f req w).2 = calls w.
Proof.
  intros Hclaim Hother.
  rewrite (gate_forbidden allow f req w email Hclaim); [done|].
  destruct email; simpl; try tauto. intros _. by destruct (Hother s).
Qed.

Lemma non_string_email_forbidden_witness :
  (get_pokemon_type sample_base sample_allow sample_catalog
     (sample_request JNull "name" "pikachu") empty_world).1 = inr (Abort 403).
Proof.
  apply (non_string_email_forbidden sample_allow
           (get_pokemon_type_view sample_base sample_catalog)
           (sample_request JNull "name" "pikachu") empty_world JNull).
  - reflexivity.
  - discriminate.
Defined.

(** ** Login callback, logout and the user loader *)

Lemma authorize_by_user (allow : list string)
    (s1 s2 : gmap string (gmap string json)) :
  s1 !! "user" = s2 !! "user" → authorize allow s1 = authorize allow s2.
Proof. unfold authorize, email_claim. by intros ->. Qed.

Lemma dict_truthy_lookup (d : gmap string json) (k : string) (v : json) :
  d !! k = Some v → dict_truthy d = true.
Proof.
  intros Hk. unfold dict_truthy.
  destruct (Nat.eqb_spec (size d) 0) as [Hsize|]; [|done].
  apply map_size_empty_iff in Hsize. subst d. by rewrite lookup_empty in Hk.
Qed.

Lemma sample_login_user_keeps_user (u : User) (s : gmap string (gmap string json)) :
  sample_login_user u s !! "user" = s !! "user".
Proof. unfold sample_login_user. by apply lookup_insert_ne. Qed.

(** The session entry of the user after a callback that obtained the
    claims of the provider. *)
Lemma callback_stores_claims (token : json) (info : gmap string json)
    (login_user : User → gmap string (gmap string json) → gmap string (gmap string json))
    (st : app_state) :
  (∀ u s, login_user u s !! "user" = s !! "user") →
  stored (callback (inr token) (inr info) login_user st).2 !! "user" = Some info.
Proof.
  intros Hkeeps. unfold callback, callback_try, callback_except. run_s.
  destruct (info !! "sub") as [sub|]; simpl; [|by rewrite lookup_insert_eq].
  destruct (info !! "name") as [name|]; simpl; [|by rewrite lookup_insert_eq].
  destruct (info !! "email") as [email|]; simpl; [|by rewrite lookup_insert_eq].
  rewrite Hkeeps. by rewrite lookup_insert_eq.
Qed.

(** X14. A callback whose provider yields the three claims [sub], [name]
    and [email] redirects to the dashboard and leaves the claims under the
    [user] entry of the session, in place of any earlier identity. *)
Theorem callback_logs_in (token : json) (info : gmap string json)
    (login_user : User → gmap string (gmap string json) → gmap string (gmap string json))
    (st : app_state) (sub name email : json) :
  (∀ u s, login_user u s !! "user" = s !! "user") →
  info !! "sub" = Some sub → info !! "name" = Some name →
  info !! "email" = Some email →
  (callback (inr token) (inr info) login_user st).1 = inr (Redirect "/dashboard") ∧
  stored (callback (inr token) (inr info) login_user st).2
    = login_user (new_User sub name email) (<["user" := info]> (stored st)) ∧
  stored (callback (inr token) (inr info) login_user st).2 !! "user" = Some info.
Proof.
  intros Hkeeps Hsub Hname Hemail.
  split; [|split; [|by apply callback_stores_claims]].
  - unfold callback, callback_try, callback_except. run_s.
    by rewrite Hsub, Hname, Hemail.
  - unfold callback, callback_try, callback_except. run_s.
    by rewrite Hsub, Hname, Hemail.
Qed.

Lemma callback_logs_in_witness :
  (callback (inr JNull) (inr sample_userinfo) sample_login_user sample_state).1
    = inr (Redirect "/dashboard") ∧
  email_claim (stored (callback (inr JNull) (inr sample_userinfo) sample_login_user
                         sample_state).2)
    = Some (JStr "ash@kanto.org").
Proof.
  destruct (callback_logs_in JNull sample_userinfo sample_login_user sample_state
              (JStr "auth0|1") (JStr "Ash") (JStr "ash@kanto.org"))
    as (Hanswer & _ & Huser).
  - apply sample_login_user_keeps_user.
  - vm_compute. reflexivity.
  - vm_compute. reflexivity.
  - vm_compute. reflexivity.
  - split; [exact Hanswer|]. unfold email_claim. rewrite Huser. vm_compute. reflexivity.
Defined.

(** X15. A callback whose provider yields claims that lack [sub], [name]
    or [email] answers 500, and yet the claims have replaced the [user]
    entry of the session: the entry is written before the claims are read. *)
Theorem callback_failure_overwrites_session (token : json) (info : gmap string json)
    (login_user : User → gmap string (gmap string json) → gmap string (gmap string json))
    (st : app_state) :
  info !! "sub" = None ∨ info !! "name" = None ∨ info !! "email" = None →
  (callback (inr token) (inr info) login_user st).1
    = inr (Jsonify (error_body "Error en el proceso de autenticacion") 500) ∧
  stored (callback (inr token) (inr info) login_user st).2
    = <["user" := info]> (stored st).
Proof.
  intros Hmissing. unfold callback, callback_try, callback_except. run_s.
  destruct (info !! "sub") as [sub|]; simpl; [|done].
  destruct (info !! "name") as [name|]; simpl; [|done].
  destruct (info !! "email") as [email|]; simpl; [|done].
  by destruct Hmissing as [|[|]].
Qed.

Lemma callback_failure_overwrites_session_witness :
  (callback (inr JNull) (inr {[ "email" := JStr "ash@kanto.org" ]})
     sample_login_user sample_state).1
    = inr (Jsonify (error_body "Error en el proceso de autenticacion") 500) ∧
  authorize sample_allow
    (stored (callback (inr JNull) (inr {[ "email" := JStr "ash@kanto.org" ]})
               sample_login_user sample_state).2) = Allow.
Proof.
  destruct (callback_failure_overwrites_session JNull
              {[ "email" := JStr "ash@kanto.org" ]} sample_login_user sample_state)
    as [Hanswer Hstored].
  - left. vm_compute. reflexivity.
  - split; [exact Hanswer|]. rewrite Hstored. vm_compute. reflexivity.
Defined.

(** X16. When the token exchange or the userinfo request fails, the
    callback answers 500 and the session is left as it was. *)
Theorem callback_provider_failure (authorize_access_token : result json)
    (userinfo : result (gmap string json))
    (login_user : User → gmap string (gmap string json) → gmap string (gmap string json))
    (st : app_state) :
  (∃ e, authorize_access_token = inl e) ∨ (∃ e, userinfo = inl e) →
  (callback authorize_access_token userinfo login_user st).1
    = inr (Jsonify (error_body "Error en el proceso de autenticacion") 500) ∧
  stored (callback authorize_access_token userinfo login_user st).2 = stored st.
Proof.
  unfold callback, callback_try, callback_except. run_s.
  intros [[e ->]|[e ->]]; [done|].
  by destruct authorize_access_token.
Qed.

Lemma callback_provider_failure_witness :
  (callback (inr JNull) (inl JSONDecodeError) sample_login_user sample_state).1
    = inr (Jsonify (error_body "Error en el proceso de autenticacion") 500) ∧
  stored (callback (inr JNull) (inl JSONDecodeError) sample_login_user sample_state).2
    = stored sample_state.
Proof.
  apply callback_provider_failure. right. by exists JSONDecodeError.
Defined.

(** X17. After a callback that obtained the claims of the provider, with
    whatever answer, the gate decides on these claims alone: the identity
    held before and the outcome of the login play no part. *)
Theorem gate_after_callback (allow : list string) (token : json)
    (info : gmap string json)
    (login_user : User → gmap string (gmap string json) → gmap string (gmap string json))
    (st : app_state) :
  (∀ u s, login_user u s !! "user" = s !! "user") →
  authorize allow (stored (callback (inr token) (inr info) login_user st).2)
  = authorize allow {[ "user" := info ]}.
Proof.
  intros Hkeeps. apply authorize_by_user.
  rewrite (callback_stores_claims token info login_user st Hkeeps).
  by rewrite lookup_singleton_eq.
Qed.

Lemma gate_after_callback_witness :
  authorize sample_allow
    (stored (callback (inr JNull) (inr sample_userinfo) sample_login_user
               sample_state).2) = Allow.
Proof.
  rewrite (gate_after_callback sample_allow JNull sample_userinfo sample_login_user
             sample_state sample_login_user_keeps_user).
  vm_compute. reflexivity.
Defined.

(** X18. The user loader gives back the user the callback logged in: after
    a successful callback, loading the identifier [sub] from the session
    yields the user made of the claims [sub], [name] and [email]. *)
Theorem load_user_after_callback (token : json) (info : gmap string json)
    (login_user : User → gmap string (gmap string json) → gmap string (gmap string json))
    (st : app_state) (w : world) (sub name email : json) :
  (∀ u s, login_user u s !! "user" = s !! "user") →
  info !! "sub" = Some sub → info !! "name" = Some name →
  info !! "email" = Some email →
  (load_user sub (stored (callback (inr token) (inr info) login_user st).2) w).1
  = inr (Some (new_User sub name email)).
Proof.
  intros Hkeeps Hsub Hname Hemail. unfold load_user.
  rewrite (callback_stores_claims token info login_user st Hkeeps).
  rewrite (dict_truthy_lookup info "sub" sub Hsub). run. unfold claim.
  by rewrite Hname, Hemail.
Qed.

Lemma load_user_after_callback_witness :
  (load_user (JStr "auth0|1")
     (stored (callback (inr JNull) (inr sample_userinfo) sample_login_user
                sample_state).2) empty_world).1
  = inr (Some (new_User (JStr "auth0|1") (JStr "Ash") (JStr "ash@kanto.org"))).
Proof.
  apply (load_user_after_callback JNull sample_userinfo sample_login_user sample_state
           empty_world (JStr "auth0|1") (JStr "Ash") (JStr "ash@kanto.org")).
  - apply sample_login_user_keeps_user.
  - vm_compute. reflexivity.
  - vm_compute. reflexivity.
  - vm_compute. reflexivity.
Defined.

(** X19. Whenever the loader returns a user, the user carries the
    identifier asked for, the session holds an email claim, which is the
    email of the user, and the upstream was not asked. *)
Theorem loaded_user_has_email_claim (user_id : json)
    (s : gmap string (gmap string json)) (w : world) (u : User) :
  (load_user user_id s w).1 = inr (Some u) →
  User_id u = user_id ∧ email_claim s = Some (User_email u) ∧
  calls (load_user user_id s w).2 = calls w.
Proof.
  unfold load_user, email_claim.
  destruct (s !! "user") as [d|]; simpl; [|done].
  destruct (dict_truthy d); [|done]. run. unfold claim.
  destruct (d !! "name") as [name|]; simpl; [|done].
  destruct (d !! "email") as [email|]; simpl; [|done].
  by intros [= <-].
Qed.

Lemma loaded_user_has_email_claim_witness :
  email_claim {[ "user" := sample_userinfo ]} = Some (JStr "ash@kanto.org").
Proof.
  destruct (loaded_user_has_email_claim (JStr "auth0|1") {[ "user" := sample_userinfo ]}
              empty_world
              (new_User (JStr "auth0|1") (JStr "Ash") (JStr "ash@kanto.org")))
    as (_ & Hclaim & _).
  - vm_compute. reflexivity.
  - exact Hclaim.
Defined.

(** X20. The loader raises [KeyError] when the [user] entry of the session
    is a non-empty dictionary that lacks [name] or [email]; it returns no
    user when the entry is absent or is the empty dictionary. *)
Theorem load_user_without_claims (user_id : json)
    (s : gmap string (gmap string json)) (w : world) :
  (∀ d k v, s !! "user" = Some d → d !! k = Some v →
     d !! "name" = None ∨ d !! "email" = None →
     (load_user user_id s w).1 = inl KeyError) ∧
  (s !! "user" = None ∨ s !! "user" = Some ∅ →
     (load_user user_id s w).1 = inr None).
Proof.
  unfold load_user. split.
  - intros d k v -> Hk Hmissing.
    rewrite (dict_truthy_lookup d k v Hk). run. unfold claim.
    destruct (d !! "name") as [name|]; simpl; [|done].
    destruct (d !! "email") as [email|]; simpl; [|done].
    by destruct Hmissing.
  - by intros [-> | ->].
Qed.

Lemma load_user_without_claims_witness :
  (load_user (JStr "auth0|1") (session_of (JStr "ash@kanto.org")) empty_world).1
    = inl KeyError ∧
  (load_user (JStr "auth0|1") {[ "user" := ∅ ]} empty_world).1 = inr None.
Proof.
  split.
  - destruct (load_user_without_claims (JStr "auth0|1")
                (session_of (JStr "ash@kanto.org")) empty_world) as [Hraise _].
    apply (Hraise {[ "email" := JStr "ash@kanto.org" ]} "email" (JStr "ash@kanto.org")).
    + vm_compute. reflexivity.
    + vm_compute. reflexivity.
    + left. vm_compute. reflexivity.
  - destruct (load_user_without_claims (JStr "auth0|1") {[ "user" := ∅ ]} empty_world)
      as [_ Hnone].
    apply Hnone. right. vm_compute. reflexivity.
Defined.

(** X21. Logout succeeds from every session, also when there is none: it
    redirects to the logout URL of the provider and empties the session, so
    that every protected route then redirects to the login route without
    asking the upstream. *)
Theorem logout_closes_session (AUTH0_DOMAIN AUTH0_CLIENT_ID : string) (st : app_state) :
  (logout AUTH0_DOMAIN AUTH0_CLIENT_ID st).1
    = inr (Redirect ("https://" ++ AUTH0_DOMAIN ++ "/v2/logout?client_id="
                       ++ AUTH0_CLIENT_ID ++ "&returnTo=http://localhost:5000")) ∧
  stored (logout AUTH0_DOMAIN AUTH0_CLIENT_ID st).2 = ∅ ∧
  ∀ base allow upstream randbelow endpoint query w,
    endpoint ∈ protected base allow upstream randbelow →
    (endpoint (Request (stored (logout AUTH0_DOMAIN AUTH0_CLIENT_ID st).2) query) w).1
      = inr (Redirect "/login") ∧
    calls (endpoint (Request (stored (logout AUTH0_DOMAIN AUTH0_CLIENT_ID st).2) query) w).2
      = calls w.
Proof.
  split; [reflexivity|]. split; [reflexivity|].
  intros base allow upstream randbelow endpoint query w Hroute.
  assert (∃ f, endpoint = requiere_autorizacion allow f) as [f ->].
  { unfold protected in Hroute. rewrite !elem_of_cons, elem_of_nil in Hroute.
    destruct Hroute as [->|[->|[->|[]]]]; eexists; reflexivity. }
  by rewrite gate_unauthenticated.
Qed.

Lemma logout_closes_session_witness :
  (get_pokemon_type sample_base sample_allow sample_catalog
     (Request (stored (logout "kanto.auth0.com" "client"
                         (AppState (session_of (JStr "ash@kanto.org")) empty_world)).2)
        {[ "name" := "pikachu" ]}) empty_world).1
  = inr (Redirect "/login").
Proof.
  destruct (logout_closes_session "kanto.auth0.com" "client"
              (AppState (session_of (JStr "ash@kanto.org")) empty_world))
    as (_ & _ & Hafter).
  apply (Hafter sample_base sample_allow sample_catalog (λ _, 0%nat)).
  apply list_elem_of_here.
Defined.
